(** * apiproxy/httpcache: the caching transport and its in-memory store

    A shallow embedding of [httpcache/httpcache.go] (the caching
    [Transport]) and of the in-memory [MemoryCache], with the properties
    of the design document proved over it.

    Conventions.
    - Go maps are stdpp [gmap]s; a [[]byte] is a [list byte] (a nil slice
      and an empty slice are both [[]]).
    - A [time.Time] is its number of nanoseconds since the Unix epoch, a
      [time.Duration] an [int64] number of nanoseconds; [Time.Sub]
      saturates as in the Go library.
    - [*http.Request] and [*http.Response] are locations in two heaps, so
      that in-place mutation and object identity are visible.
    - What the code calls from outside (the underlying round tripper, the
      response parser and printer, [fmt.Printf]) is either a parameter or
      an entry of the event trace. *)

From stdpp Require Import gmap strings list fin_maps.
From Stdlib Require Import ZArith Ascii String.
From Stdlib.Strings Require Import Byte.

Local Open Scope string_scope.
Local Open Scope Z_scope.

Abbreviation Bytes := (list Byte.byte).
Abbreviation Time := Z.
Abbreviation Duration := Z.

(** ** package time *)

Definition maxDuration : Duration := 9223372036854775807.
Definition minDuration : Duration := -9223372036854775808.

(** [Time.Sub]: the duration [t - u], clamped to the range of [Duration]. *)
Definition Time_Sub (t u : Time) : Duration :=
  if maxDuration <? t - u then maxDuration
  else if t - u <? minDuration then minDuration
  else t - u.

(** [time.Since(t)] is [time.Now().Sub(t)]; the clock reading is explicit. *)
Definition Since (now t : Time) : Duration := Time_Sub now t.

(** The zero value of [time.Time]: January 1, year 1, 00:00 UTC. *)
Definition zeroTime : Time := -62135596800000000000.

(** ** The in-memory store *)

Record MemoryCache := mkMemoryCache {
  items : gmap string Bytes;
  ts : gmap string Time;
  maxTTL : Duration
}.

(** [None] stands for the panic ["maxTTL must be >0"]. *)
Definition NewMemoryCache (ttl : Duration) : option MemoryCache :=
  if ttl <=? 0 then None
  else Some {| items := ∅; ts := ∅; maxTTL := ttl |}.

Definition MemoryCache_Delete (key : string) (c : MemoryCache) : MemoryCache :=
  {| items := delete key (items c);
     ts := delete key (ts c);
     maxTTL := maxTTL c |}.

Definition MemoryCache_Set (now : Time) (key : string) (resp : Bytes)
    (c : MemoryCache) : MemoryCache :=
  {| items := <[key := resp]> (items c);
     ts := <[key := now]> (ts c);
     maxTTL := maxTTL c |}.

(** [resp, ok = c.items[key]] and [ts := c.ts[key]]: a missing key reads as
    the zero value. *)
Definition MemoryCache_Get (now : Time) (key : string) (c : MemoryCache)
    : (Bytes * bool) * MemoryCache :=
  let resp := default [] (items c !! key) in
  let ok := bool_decide (is_Some (items c !! key)) in
  let t := default zeroTime (ts c !! key) in
  if ok && (maxTTL c <? Since now t)
  then (([], false), MemoryCache_Delete key c)
  else ((resp, ok), c).

(** A client of the store: one call, with the clock reading it sees. *)
Inductive CacheOp :=
  | OpGet (now : Time) (key : string)
  | OpSet (now : Time) (key : string) (resp : Bytes)
  | OpDelete (key : string).

Definition run_op (op : CacheOp) (c : MemoryCache) : MemoryCache :=
  match op with
  | OpGet now key => snd (MemoryCache_Get now key c)
  | OpSet now key resp => MemoryCache_Set now key resp c
  | OpDelete key => MemoryCache_Delete key c
  end.

Definition run_ops (ops : list CacheOp) (c : MemoryCache) : MemoryCache :=
  foldl (fun c op => run_op op c) c ops.

(** The store invariant: both maps have the same keys. *)
Definition keys_agree (c : MemoryCache) : Prop :=
  dom (items c) = dom (ts c).


(** ** package net/textproto and net/http: header maps *)

Definition byte_in (lo hi c : ascii) : bool :=
  ((nat_of_ascii lo <=? nat_of_ascii c) && (nat_of_ascii c <=? nat_of_ascii hi))%nat.

Definition is_lower (c : ascii) : bool := byte_in "a" "z" c.
Definition is_upper (c : ascii) : bool := byte_in "A" "Z" c.
Definition is_digit (c : ascii) : bool := byte_in "0" "9" c.

(** The bytes of an HTTP token (RFC 7230, section 3.2.6). *)
Definition validHeaderFieldByte (c : ascii) : bool :=
  is_lower c || is_upper c || is_digit c ||
  bool_decide (c ∈ ["!"; "#"; "$"; "%"; "&"; "'"; "*"; "+"; "-"; "."; "^"; "_";
                    "`"; "|"; "~"]%char).

Definition toLower : nat := 32.

Fixpoint canonicalMIMEHeaderKey (upper : bool) (a : string) : string :=
  match a with
  | EmptyString => EmptyString
  | String c rest =>
      let c' :=
        if upper && is_lower c then ascii_of_nat (nat_of_ascii c - toLower)
        else if negb upper && is_upper c then ascii_of_nat (nat_of_ascii c + toLower)
        else c in
      String c' (canonicalMIMEHeaderKey (bool_decide (c' = "-"%char)) rest)
  end.

(** [http.CanonicalHeaderKey]: first letter and every letter after a
    hyphen in upper case, the others in lower case; a key with a byte that
    is not a token byte is returned as it is. *)
Definition CanonicalHeaderKey (s : string) : string :=
  if forallb validHeaderFieldByte (list_ascii_of_string s)
  then canonicalMIMEHeaderKey true s
  else s.

Abbreviation Header := (gmap string (list string)).

Definition Header_Get (h : Header) (key : string) : string :=
  match h !! CanonicalHeaderKey key with
  | Some (v :: _) => v
  | _ => ""
  end.

Definition Header_Set (h : Header) (key value : string) : Header :=
  <[CanonicalHeaderKey key := [value]]> h.

Definition Header_Del (h : Header) (key : string) : Header :=
  delete (CanonicalHeaderKey key) h.

(** ** Requests, responses and the objects they live in *)

Abbreviation loc := positive.
Abbreviation Error := string.

Module Request.
Record t := mk {
  Method : string;
  URL : string;
  Header : Header
}.
Definition with_Header (h : gmap string (list string)) (r : t) : t :=
  {| Method := Method r; URL := URL r; Header := h |}.
End Request.

Module Response.
Record t := mk {
  StatusCode : Z;
  Header : Header;
  Body : Bytes;
  Request : option loc
}.
Definition with_Header (h : gmap string (list string)) (r : t) : t :=
  {| StatusCode := StatusCode r; Header := h; Body := Body r;
     Request := Request r |}.
Definition with_Body (b : Bytes) (r : t) : t :=
  {| StatusCode := StatusCode r; Header := Header r; Body := b;
     Request := Request r |}.
Definition with_Request (q : option loc) (r : t) : t :=
  {| StatusCode := StatusCode r; Header := Header r; Body := Body r;
     Request := q |}.
End Response.

Definition StatusNotModified : Z := 304.

(** ** httpcache.go *)

Definition XFromCache : string := "X-Aproxy-From-Cache".
Definition XCacheable : string := "X-Aproxy-Cacheable".

(** Modelled from the spec: the [Cache] interface, whose declaration is not
    in the sources at hand: [Get(key) (value, found)], [Set(key, value)],
    [Delete(key)].  The first argument is the reading of the clock at the
    call, for the implementations that look at it. *)
Class Cache (C : Type) := {
  Cache_Get : Time -> string -> C -> (Bytes * bool) * C;
  Cache_Set : Time -> string -> Bytes -> C -> C;
  Cache_Delete : string -> C -> C
}.

#[export] Instance MemoryCache_Cache : Cache MemoryCache := {|
  Cache_Get := MemoryCache_Get;
  Cache_Set := MemoryCache_Set;
  Cache_Delete := MemoryCache_Delete
|}.

(** Modelled from the spec: [cacheKey], whose definition is not in the
    sources at hand; the key is simply the request URL string. *)
Definition cacheKey (req : Request.t) : string := Request.URL req.

(** What a run of the transport can be observed to do. *)
Inductive Event :=
  | EvCacheGet (key : string)
  | EvCacheSet (key : string) (value : Bytes)
  | EvRoundTrip (req : loc) (sent : Request.t)
  | EvPrintf (line : string).

(** An [http.RoundTripper]: it sees the request, allocates its response
    among the response objects and takes time; by its contract it leaves
    the request alone. *)
Definition RoundTripper : Type :=
  loc -> Request.t -> gmap loc Response.t -> Time ->
  (option loc * option Error) * gmap loc Response.t * Time.

Module Transport.
Record t := mk { Transport : option RoundTripper }.
End Transport.

(** *** The state a call runs in, and the monad of such calls *)

Record State (C : Type) := mkState {
  requests : gmap loc Request.t;
  responses : gmap loc Response.t;
  store : C;
  clock : Time;
  trace : list Event
}.
Arguments mkState {C}.
Arguments requests {C}.
Arguments responses {C}.
Arguments store {C}.
Arguments clock {C}.
Arguments trace {C}.

Inductive Result (A : Type) :=
  | Done (a : A)
  | Panic (v : string).
Arguments Done {A}.
Arguments Panic {A}.

Definition M (C A : Type) : Type := State C -> Result A * State C.

Definition ret {C A} (a : A) : M C A := fun s => (Done a, s).

Definition bind {C A B} (m : M C A) (f : A -> M C B) : M C B := fun s =>
  match m s with
  | (Done a, s') => f a s'
  | (Panic v, s') => (Panic v, s')
  end.

Declare Scope go_scope.
Delimit Scope go_scope with go.
Bind Scope go_scope with M.

Notation "'let*' x := m 'in' k" := (bind m (fun x => k))
  (at level 10, x name, m at level 100, k at level 200) : go_scope.
Notation "'let*' ' pat := m 'in' k" :=
  (bind m (fun x => match x with pat => k end))
  (at level 10, pat pattern, m at level 100, k at level 200) : go_scope.
Notation "m ;; k" := (bind m (fun _ => k))
  (at level 100, k at level 200, right associativity) : go_scope.

Local Open Scope go_scope.

Definition panic {C A} (v : string) : M C A := fun s => (Panic v, s).

Definition nilDeref : string :=
  "runtime error: invalid memory address or nil pointer dereference".

Section actions.
Context {C : Type} `{!Cache C}.

Definition emit (e : Event) : M C unit := fun s =>
  (Done tt,
   mkState (requests s) (responses s) (store s) (clock s) (trace s ++ [e])).

Definition load_req (p : loc) : M C Request.t := fun s =>
  match requests s !! p with
  | Some r => (Done r, s)
  | None => (Panic nilDeref, s)
  end.

Definition store_req (p : loc) (r : Request.t) : M C unit := fun s =>
  (Done tt,
   mkState (<[p := r]> (requests s)) (responses s) (store s) (clock s)
     (trace s)).

Definition load_resp (p : option loc) : M C Response.t := fun s =>
  match p ≫= (fun l => responses s !! l) with
  | Some r => (Done r, s)
  | None => (Panic nilDeref, s)
  end.

Definition store_resp (p : option loc) (r : Response.t) : M C unit := fun s =>
  match p with
  | Some l =>
      (Done tt,
       mkState (requests s) (<[l := r]> (responses s)) (store s) (clock s)
         (trace s))
  | None => (Panic nilDeref, s)
  end.

(** [&Response{...}]: a new object, at a location not in use. *)
Definition new_resp (r : Response.t) : M C loc := fun s =>
  let p := fresh (dom (responses s)) in
  (Done p,
   mkState (requests s) (<[p := r]> (responses s)) (store s) (clock s)
     (trace s)).

(** [t.Cache.Get(key)] *)
Definition cache_Get (key : string) : M C (Bytes * bool) := fun s =>
  let '(r, c) := Cache_Get (clock s) key (store s) in
  (Done r,
   mkState (requests s) (responses s) c (clock s)
     (trace s ++ [EvCacheGet key])).

(** [t.Cache.Set(key, value)] *)
Definition cache_Set (key : string) (value : Bytes) : M C unit := fun s =>
  (Done tt,
   mkState (requests s) (responses s)
     (Cache_Set (clock s) key value (store s)) (clock s)
     (trace s ++ [EvCacheSet key value])).

(** [transport.RoundTrip(req)] *)
Definition call_RoundTrip (transport : RoundTripper) (req : loc)
    : M C (option loc * option Error) :=
  let* r := load_req req in
  fun s =>
    let '(out, resps, now) := transport req r (responses s) (clock s) in
    (Done out,
     mkState (requests s) resps (store s) now
       (trace s ++ [EvRoundTrip req r])).

Definition Printf (line : string) : M C unit := emit (EvPrintf line).
End actions.

Definition newline : string := String (ascii_of_nat 10) EmptyString.

Section transport.
Context {C : Type} `{!Cache C}.

(** [http.DefaultTransport] *)
Variable DefaultTransport : RoundTripper.

(** [http.ReadResponse] on the bytes [b], for a request [req]: the
    parsed response, not yet tied to the request object. *)
Variable readResponse : Bytes -> Request.t -> Response.t + Error.

(** [httputil.DumpResponse(resp, true)]: what is left to read of the
    body afterwards, and the wire form of the response or an error. *)
Variable dumpResponse : Response.t -> Bytes * (Bytes + Error).

(** [http.ReadResponse(reader, req)]: a new response whose [Request]
    field is [req], or [(nil, err)]. *)
Definition ReadResponse (b : Bytes) (req : loc)
    : M C (option loc * option Error) :=
  let* r := load_req req in
  match readResponse b r with
  | inl resp =>
      let* p := new_resp (Response.with_Request (Some req) resp) in
      ret (Some p, None)
  | inr err => ret (None, Some err)
  end.

(** [httputil.DumpResponse(resp, true)] on the response object. *)
Definition DumpResponse (resp : option loc) : M C (Bytes + Error) :=
  let* r := load_resp resp in
  let '(body, out) := dumpResponse r in
  store_resp resp (Response.with_Body body r) ;;
  ret out.

Definition bytesToResp (b : Bytes) (req : loc)
    : M C (option loc * option Error) :=
  ReadResponse b req.

(** [lookup] returns the cached response for the request, if present. *)
Definition lookup (req : loc) : M C (option loc) :=
  let* r := load_req req in
  let* '(cachedVal, ok) := cache_Get (cacheKey r) in
  if negb ok then ret None
  else
    let* '(resp, err) := bytesToResp cachedVal req in
    match err with
    | Some e => panic e
    | None =>
        let* h := load_resp resp in
        store_resp resp
          (Response.with_Header
             (Header_Set (Response.Header h) XFromCache "1") h) ;;
        ret resp
    end.

Definition RoundTrip (t : Transport.t) (req : loc)
    : M C (option loc * option Error) :=
  let* r := load_req req in
  let cacheable :=
    (bool_decide (Request.Method r = "GET")
     || bool_decide (Request.Method r = "HEAD"))
    && bool_decide (Header_Get (Request.Header r) "range" = "") in
  let* resp := (if cacheable then lookup req else ret None) in
  match resp with
  | Some _ =>
      Printf ("[from-cache] " ++ Request.URL r ++ newline) ;;
      ret (resp, None)
  | None =>
      let transport :=
        match Transport.Transport t with
        | Some rt => rt
        | None => DefaultTransport
        end in
      let* r := load_req req in
      store_req req
        (Request.with_Header
           (Header_Del (Request.Header r) "If-None-Match") r) ;;
      let* '(resp, err) := call_RoundTrip transport req in
      let* failed :=
        match err with
        | Some _ => ret true
        | None =>
            let* o := load_resp resp in
            ret (bool_decide (Response.StatusCode o = StatusNotModified))
        end in
      let cacheable := if failed : bool then false else cacheable in
      if cacheable then
        let* dumped := DumpResponse resp in
        match dumped with
        | inl respBytes =>
            let* r := load_req req in
            let cacheKey := cacheKey r in
            cache_Set cacheKey respBytes ;;
            bytesToResp respBytes req
        | inr e =>
            Printf ("[ERROR] " ++ e ++ newline) ;;
            ret (resp, err)
        end
      else ret (resp, err)
  end.

Definition transport_of (t : Transport.t) : RoundTripper :=
  match Transport.Transport t with
  | Some rt => rt
  | None => DefaultTransport
  end.

(** The forwarding path of [RoundTrip]: its code from
    [transport := t.Transport] on, as a function of the [cacheable]
    flag computed before. *)
Definition forward (t : Transport.t) (req : loc) (cacheable : bool)
    : M C (option loc * option Error) :=
  let transport := transport_of t in
  let* r := load_req req in
  store_req req
    (Request.with_Header
       (Header_Del (Request.Header r) "If-None-Match") r) ;;
  let* '(resp, err) := call_RoundTrip transport req in
  let* failed :=
    match err with
    | Some _ => ret true
    | None =>
        let* o := load_resp resp in
        ret (bool_decide (Response.StatusCode o = StatusNotModified))
    end in
  let cacheable := if failed : bool then false else cacheable in
  if cacheable then
    let* dumped := DumpResponse resp in
    match dumped with
    | inl respBytes =>
        let* r := load_req req in
        let cacheKey := cacheKey r in
        cache_Set cacheKey respBytes ;;
        bytesToResp respBytes req
    | inr e =>
        Printf ("[ERROR] " ++ e ++ newline) ;;
        ret (resp, err)
    end
  else ret (resp, err).
End transport.

(** [cloneRequest] returns a clone of the request: a new object with a
    copy of the header map.  Nothing in the package calls it. *)
Definition cloneRequest {C} (r : loc) : M C loc :=
  let* q := load_req r in
  fun s =>
    let r2 := fresh (dom (requests s)) in
    (Done r2,
     mkState (<[r2 := Request.with_Header (Request.Header q) q]> (requests s))
       (responses s) (store s) (clock s) (trace s)).

(** ** Vocabulary of the statements *)

(** A header map carries the field [name]: there is a non-empty first
    value under its canonical key, which is what [Header.Get] reports. *)
Definition has_header (h : Header) (name : string) : Prop :=
  exists v vs, h !! CanonicalHeaderKey name = Some (v :: vs) /\ v <> "".

(** The eligibility test of [RoundTrip]. *)
Definition eligible (r : Request.t) : bool :=
  (bool_decide (Request.Method r = "GET")
   || bool_decide (Request.Method r = "HEAD"))
  && bool_decide (Header_Get (Request.Header r) "range" = "").

(** The request as the underlying transport gets it. *)
Definition sent (r : Request.t) : Request.t :=
  Request.with_Header (Header_Del (Request.Header r) "If-None-Match") r.

(** A reply [(resp, err)] that [RoundTrip] can inspect: an error, or a
    response object that exists. *)
Definition reply_ok (resps : gmap loc Response.t)
    (out : option loc * option Error) : bool :=
  match out with
  | (_, Some _) => true
  | (p, None) => bool_decide (is_Some (p ≫= fun l => resps !! l))
  end.

(** The response object served from the stored form [o] of a response. *)
Definition served (req : loc) (o : Response.t) : Response.t :=
  let o' := Response.with_Request (Some req) o in
  Response.with_Header (Header_Set (Response.Header o') XFromCache "1") o'.

Definition is_Get (e : Event) : bool :=
  match e with EvCacheGet _ => true | _ => false end.
Definition is_Set (e : Event) : bool :=
  match e with EvCacheSet _ _ => true | _ => false end.
Definition is_RoundTrip (e : Event) : bool :=
  match e with EvRoundTrip _ _ => true | _ => false end.

Section vocabulary.
Context {C : Type} `{!Cache C}.

(** The request [r] gets past the cache in the state [s]: it is not
    eligible, or the store reports a miss. *)
Definition forwarded (r : Request.t) (s : State C) : Prop :=
  eligible r = false \/
  snd (fst (Cache_Get (clock s) (cacheKey r) (store s))) = false.

(** The state in which the forwarding path starts. *)
Definition after_lookup (r : Request.t) (s : State C) : State C :=
  if eligible r then
    mkState (requests s) (responses s)
      (snd (Cache_Get (clock s) (cacheKey r) (store s))) (clock s)
      (trace s ++ [EvCacheGet (cacheKey r)])
  else s.

(** The state right after the underlying transport has answered. *)
Definition answered (req : loc) (r : Request.t) (s : State C)
    (resps : gmap loc Response.t) (now : Time) : State C :=
  mkState (<[req := sent r]> (requests s)) resps (store s) now
    (trace s ++ [EvRoundTrip req (sent r)]).
End vocabulary.

(** ** Test doubles

    A toy wire format, two origins and a few requests, to run the
    transport on. *)

Module Demo.
Definition hello : Bytes := list_byte_of_string "hello".

(** One byte for the status code (less 100), then the body; the header
    fields are not kept. *)
Definition dumpResponse (r : Response.t) : Bytes * (Bytes + Error) :=
  (Response.Body r,
   if (100 <=? Response.StatusCode r) && (Response.StatusCode r <? 356)
   then
     match Byte.of_N (Z.to_N (Response.StatusCode r - 100)) with
     | Some c => inl (c :: Response.Body r)
     | None => inr "malformed status code"
     end
   else inr "malformed status code").

Definition readResponse (b : Bytes) (r : Request.t) : Response.t + Error :=
  match b with
  | [] => inr "unexpected EOF"
  | c :: body => inl (Response.mk (Z.of_N (Byte.to_N c) + 100) ∅ body None)
  end.

(** An origin that answers every request with the same status, header
    fields and body, after 5 ns. *)
Definition origin (code : Z) (h : Header) (body : Bytes) : RoundTripper :=
  fun req r resps now =>
    let p := fresh (dom resps) in
    ((Some p, None), <[p := Response.mk code h body (Some req)]> resps,
     now + 5).

(** An origin that cannot be reached. *)
Definition unreachable : RoundTripper :=
  fun req r resps now => ((None, Some "connection refused"), resps, now + 1).

Definition via (rt : RoundTripper) : Transport.t := Transport.mk (Some rt).

Definition url : string := "http://x/a".

Definition request (method : string) (h : Header) : Request.t :=
  Request.mk method url h.

Definition empty_cache : MemoryCache :=
  {| items := ∅; ts := ∅; maxTTL := 60 |}.

(** A store that holds [value] for the demo URL, written at time 990. *)
Definition cache_with (value : Bytes) : MemoryCache :=
  MemoryCache_Set 990 url value empty_cache.

(** The request [r] at location 1, no response yet, the clock at 1000. *)
Definition start (r : Request.t) (c : MemoryCache) : State MemoryCache :=
  mkState {[1%positive := r]} ∅ c 1000 [].

(** The wire form of a 200 response with the body [hello]. *)
Definition dhello : Bytes := list_byte_of_string "dhello".

Definition get : Request.t := request "GET" ∅.
Definition post : Request.t := request "POST" ∅.
Definition conditional_post : Request.t :=
  request "POST" {["If-None-Match" := ["abc"]]}.

Definition run (rt : RoundTripper) (r : Request.t) (c : MemoryCache)
    : Result (option loc * option Error) * State MemoryCache :=
  RoundTrip unreachable readResponse dumpResponse (via rt) 1%positive
    (start r c).
End Demo.

(** More test doubles: an origin that breaks the contract, a store with a
    stale entry, a request with a validator, a header with a list. *)
Module Sample.
(** It returns neither a response nor an error. *)
Definition silent : RoundTripper :=
  fun req r resps now => ((None, None), resps, now).

(** The request at location 1 and a response object at location 7. *)
Definition busy : State MemoryCache :=
  mkState {[1%positive := Demo.conditional_post]}
    {[7%positive := Response.mk 200 ∅ Demo.hello None]}
    Demo.empty_cache 1000 [].

(** The clock at 1051, the entry written at 990: older than the TTL of 60. *)
Definition stale : State MemoryCache :=
  mkState {[1%positive := Demo.get]} ∅ (Demo.cache_with Demo.dhello) 1051 [].

Definition cache_control : Header :=
  {["Cache-Control" := ["no-cache , max-age=0"; ""]]}.

Definition accept : Header := {["Accept" := ["text/html"]]}.

(** A GET for a range of bytes, and one whose Range header has an empty
    first value before the range (two Range lines, the first one empty). *)
Definition range_get : Request.t :=
  Demo.request "GET" {["Range" := ["bytes=0-10"]]}.
Definition blank_range_get : Request.t :=
  Demo.request "GET" {["Range" := [""; "bytes=0-10"]]}.

Definition ops : list CacheOp :=
  [OpSet 10 "a" Demo.hello; OpSet 20 "b" []; OpGet 75 "a"; OpDelete "c";
   OpGet 76 "b"; OpSet 90 "a" []].
End Sample.

(** ** package strings, and [headerAllCommaSepValues] *)

(** [strings.Split(s, sep)] for a separator [sep] of one byte: the pieces
    of [s] between the occurrences of [sep], one more than there are
    occurrences. *)
Fixpoint Split (s : string) (sep : ascii) : list string :=
  match s with
  | EmptyString => [EmptyString]
  | String c rest =>
      if bool_decide (c = sep) then EmptyString :: Split rest sep
      else
        match Split rest sep with
        | f :: fs => String c f :: fs
        | [] => [String c EmptyString]
        end
  end.

(** [utf8.RuneSelf]: the bytes below it are the ASCII characters. *)
Definition RuneSelf : nat := 128.

Definition is_ASCII (c : ascii) : bool := (nat_of_ascii c <? RuneSelf)%nat.

(** The table [asciiSpace] of package strings: tab, newline, vertical
    tab, form feed, carriage return and space. *)
Definition asciiSpace (c : ascii) : bool :=
  bool_decide (nat_of_ascii c ∈ [9; 10; 11; 12; 13; 32]%nat).

(** The first loop of [strings.TrimSpace]: [inl] of what is left of the
    string at the first ASCII byte that is not a space (or at the end),
    [inr] of what is left at a byte that is not ASCII. *)
Fixpoint trim_start (s : string) : string + string :=
  match s with
  | EmptyString => inl EmptyString
  | String c rest =>
      if negb (is_ASCII c) then inr s
      else if asciiSpace c then trim_start rest
      else inl s
  end.

(** Its second loop, on the bytes from the last one backwards. *)
Fixpoint trim_stop (rev_s : list ascii) : list ascii + list ascii :=
  match rev_s with
  | [] => inl []
  | c :: rest =>
      if negb (is_ASCII c) then inr rev_s
      else if asciiSpace c then trim_stop rest
      else inl rev_s
  end.

Section strings.
(** [strings.TrimFunc(s, unicode.IsSpace)] and
    [strings.TrimRightFunc(s, unicode.IsSpace)], which [TrimSpace] falls
    back on at a byte that is not ASCII. *)
Variable TrimFunc_IsSpace : string -> string.
Variable TrimRightFunc_IsSpace : string -> string.

Definition TrimSpace (s : string) : string :=
  match trim_start s with
  | inr rest => TrimFunc_IsSpace rest
  | inl rest =>
      match trim_stop (rev (list_ascii_of_string rest)) with
      | inr l => TrimRightFunc_IsSpace (string_of_list_ascii (rev l))
      | inl l => string_of_list_ascii (rev l)
      end
  end.

(** [headerAllCommaSepValues] returns all comma-separated values (each
    with whitespace trimmed) for header [name] in [headers]. *)
Definition headerAllCommaSepValues (headers : Header) (name : string)
    : list string :=
  foldl
    (fun vals val =>
       let fields := Split val ","%char in
       let fields := map TrimSpace fields in
       (vals ++ fields)%list)
    [] (default [] (headers !! CanonicalHeaderKey name)).
End strings.

(** Number of occurrences of a byte in a string. *)
Fixpoint count_byte (c : ascii) (s : string) : nat :=
  match s with
  | EmptyString => 0
  | String d rest => (if bool_decide (d = c) then 1 else 0) + count_byte c rest
  end.

(** A string of ASCII bytes only. *)
Definition all_ASCII (s : string) : bool :=
  forallb is_ASCII (list_ascii_of_string s).

(** First and last byte of a string, if any. *)
Definition first_byte (s : string) : option ascii :=
  head (list_ascii_of_string s).
Definition last_byte (s : string) : option ascii :=
  last (list_ascii_of_string s).

(** The key a call of the store is about. *)
Definition op_key (op : CacheOp) : string :=
  match op with
  | OpGet _ key => key
  | OpSet _ key _ => key
  | OpDelete key => key
  end.

(** ** Proof automation: running the monad by hand *)

Ltac unfold_go :=
  unfold forward, lookup, bytesToResp, ReadResponse,
    DumpResponse, call_RoundTrip, Printf, emit, cache_Get, cache_Set,
    new_resp, store_resp, load_resp, store_req, load_req, panic, ret, bind.

Ltac use_eqs :=
  repeat match goal with
  | H : ?x = _ |- context [?x] => rewrite H
  end.

Ltac exec :=
  repeat (progress (simpl; use_eqs; rewrite ?lookup_insert_eq)).

(** * Properties of the in-memory store *)

Section memory_cache.
Implicit Types (c : MemoryCache) (key : string) (now t : Time).

Lemma Since_exact now t :
  minDuration <= now - t <= maxDuration -> Since now t = now - t.
Proof.
  intros [Hlo Hhi]. unfold Since, Time_Sub.
  destruct (Z.ltb_spec maxDuration (now - t)); [lia|].
  destruct (Z.ltb_spec (now - t) minDuration); [lia|done].
Qed.

Lemma keys_agree_new ttl c : NewMemoryCache ttl = Some c -> keys_agree c.
Proof.
  unfold NewMemoryCache. case_match; [done|].
  intros [= <-]. unfold keys_agree; simpl. by rewrite !dom_empty_L.
Qed.

Lemma keys_agree_Delete key c :
  keys_agree c -> keys_agree (MemoryCache_Delete key c).
Proof.
  unfold keys_agree; simpl. intros H. by rewrite !dom_delete_L, H.
Qed.

Lemma keys_agree_Set now key resp c :
  keys_agree c -> keys_agree (MemoryCache_Set now key resp c).
Proof.
  unfold keys_agree; simpl. intros H. by rewrite !dom_insert_L, H.
Qed.

Lemma keys_agree_Get now key c :
  keys_agree c -> keys_agree (snd (MemoryCache_Get now key c)).
Proof.
  intros H. unfold MemoryCache_Get.
  case_match; simpl; [by apply keys_agree_Delete|done].
Qed.

Lemma keys_agree_run_op op c : keys_agree c -> keys_agree (run_op op c).
Proof.
  destruct op; simpl;
    auto using keys_agree_Get, keys_agree_Set, keys_agree_Delete.
Qed.

Lemma keys_agree_run_ops ops c : keys_agree c -> keys_agree (run_ops ops c).
Proof.
  revert c. induction ops as [|op ops IH]; intros c H; simpl; [done|].
  apply IH. by apply keys_agree_run_op.
Qed.

Lemma MemoryCache_Set_lookup now key resp c :
  items (MemoryCache_Set now key resp c) !! key = Some resp /\
  ts (MemoryCache_Set now key resp c) !! key = Some now.
Proof. simpl. by rewrite !lookup_insert_eq. Qed.

(** C9.  For a key that holds the value [resp] written at the time [t]
    (as [Set] leaves it), with [Since now t] the time elapsed, the
    duration now - t:
    - when it is greater than the TTL, [Get] returns not-found and
      removes the entry, from both maps (lazy expiry inside [Get]);
    - otherwise [Get] returns the stored bytes and true, and leaves the
      store as it is. *)
Theorem MemoryCache_Get_expiry c key resp t now :
  items c !! key = Some resp ->
  ts c !! key = Some t ->
  (minDuration <= now - t <= maxDuration -> Since now t = now - t) /\
  (maxTTL c < Since now t ->
     MemoryCache_Get now key c = (([], false), MemoryCache_Delete key c) /\
     items (snd (MemoryCache_Get now key c)) !! key = None /\
     ts (snd (MemoryCache_Get now key c)) !! key = None) /\
  (Since now t <= maxTTL c ->
     MemoryCache_Get now key c = ((resp, true), c)).
Proof.
  intros Hi Ht. split; [apply Since_exact|].
  unfold MemoryCache_Get. rewrite Hi, Ht. simpl.
  split; intros Hcmp.
  - apply Z.ltb_lt in Hcmp. rewrite Hcmp. simpl.
    by rewrite !lookup_delete_eq.
  - apply Z.ltb_ge in Hcmp. by rewrite Hcmp.
Qed.

(** C10.  From construction on, after any sequence of [Get], [Set] and
    [Delete], the two maps of the store have the same keys: a key has a
    value exactly when it has a timestamp. *)
Theorem MemoryCache_keys_agree ttl c ops :
  NewMemoryCache ttl = Some c ->
  dom (items (run_ops ops c)) = dom (ts (run_ops ops c)) /\
  forall key,
    is_Some (items (run_ops ops c) !! key) <->
    is_Some (ts (run_ops ops c) !! key).
Proof.
  intros Hnew.
  assert (keys_agree (run_ops ops c)) as H.
  { apply keys_agree_run_ops. by apply (keys_agree_new ttl). }
  split; [done|]. intros key. by rewrite <- !elem_of_dom, H.
Qed.
End memory_cache.

(** * Properties of the caching transport *)

Section headers.
Implicit Types (h : Header) (r : Request.t).

Lemma canonical_range : CanonicalHeaderKey "range" = "Range".
Proof. reflexivity. Qed.

Lemma canonical_Range : CanonicalHeaderKey "Range" = "Range".
Proof. reflexivity. Qed.

Lemma canonical_If_None_Match :
  CanonicalHeaderKey "If-None-Match" = "If-None-Match".
Proof. reflexivity. Qed.

Lemma canonical_XFromCache : CanonicalHeaderKey XFromCache = XFromCache.
Proof. reflexivity. Qed.

Lemma canonical_XCacheable : CanonicalHeaderKey XCacheable = XCacheable.
Proof. reflexivity. Qed.

Lemma Header_Get_has_header h name :
  Header_Get h name <> "" <-> has_header h name.
Proof.
  unfold Header_Get, has_header. split.
  - destruct (h !! CanonicalHeaderKey name) as [[|v vs]|]; try done.
    intros Hv. by exists v, vs.
  - by intros (v & vs & -> & Hv).
Qed.

Lemma Header_Get_Set h name v : Header_Get (Header_Set h name v) name = v.
Proof. unfold Header_Get, Header_Set. by rewrite lookup_insert_eq. Qed.


Lemma eligible_true r :
  eligible r = true <->
  (Request.Method r = "GET" \/ Request.Method r = "HEAD") /\
  ~ has_header (Request.Header r) "Range".
Proof.
  unfold eligible. rewrite andb_true_iff, orb_true_iff.
  rewrite !bool_decide_eq_true, <- Header_Get_has_header.
  unfold Header_Get. rewrite canonical_range, canonical_Range.
  split; intros [Hm Hr]; (split; [done|]).
  - intros Hne. by apply Hne.
  - destruct (Request.Header r !! "Range") as [[|v vs]|]; try done.
    destruct (decide (v = "")) as [|Hv]; [done|]. by destruct Hr.
Qed.

Lemma eligible_false r :
  (Request.Method r <> "GET" /\ Request.Method r <> "HEAD") \/
  has_header (Request.Header r) "Range" ->
  eligible r = false.
Proof.
  intros H. destruct (eligible r) eqn:He; [|done].
  apply eligible_true in He as [Hm Hr].
  destruct H as [[? ?]|?]; [by destruct Hm|done].
Qed.
End headers.

Section transport_facts.
Context {C : Type} `{!Cache C}.
Variable DefaultTransport : RoundTripper.
Variable readResponse : Bytes -> Request.t -> Response.t + Error.
Variable dumpResponse : Response.t -> Bytes * (Bytes + Error).

Abbreviation RoundTrip := (RoundTrip DefaultTransport readResponse dumpResponse).
Abbreviation forward := (forward DefaultTransport readResponse dumpResponse).
Abbreviation lookup := (lookup readResponse).
Abbreviation transport_of := (transport_of DefaultTransport).

Implicit Types (s : State C) (r : Request.t) (o : Response.t).

Lemma RoundTrip_eq t req :
  RoundTrip t req =
    (let* r := load_req req in
     let* resp := (if eligible r then lookup req else ret None) in
     match resp with
     | Some _ =>
         Printf ("[from-cache] " ++ Request.URL r ++ newline) ;;
         ret (resp, None)
     | None => forward t req (eligible r)
     end).
Proof. reflexivity. Qed.

Lemma lookup_miss req s r b c :
  requests s !! req = Some r ->
  Cache_Get (clock s) (cacheKey r) (store s) = ((b, false), c) ->
  lookup req s =
    (Done None,
     mkState (requests s) (responses s) c (clock s)
       (trace s ++ [EvCacheGet (cacheKey r)])).
Proof. intros Hr Hc. unfold_go. by exec. Qed.

Lemma lookup_hit req s r b c o :
  requests s !! req = Some r ->
  Cache_Get (clock s) (cacheKey r) (store s) = ((b, true), c) ->
  readResponse b r = inl o ->
  lookup req s =
    (Done (Some (fresh (dom (responses s)))),
     mkState (requests s)
       (<[fresh (dom (responses s)) := served req o]> (responses s)) c
       (clock s) (trace s ++ [EvCacheGet (cacheKey r)])).
Proof.
  intros Hr Hc Ho. unfold_go. exec. by rewrite insert_insert_eq.
Qed.

Lemma lookup_corrupt req s r b c e :
  requests s !! req = Some r ->
  Cache_Get (clock s) (cacheKey r) (store s) = ((b, true), c) ->
  readResponse b r = inr e ->
  lookup req s =
    (Panic e,
     mkState (requests s) (responses s) c (clock s)
       (trace s ++ [EvCacheGet (cacheKey r)])).
Proof. intros Hr Hc Ho. unfold_go. by exec. Qed.

Lemma RoundTrip_forwarded t req s r :
  requests s !! req = Some r ->
  forwarded r s ->
  RoundTrip t req s = forward t req (eligible r) (after_lookup r s).
Proof.
  intros Hr Hf. rewrite RoundTrip_eq. unfold after_lookup.
  unfold bind at 1. unfold load_req at 1. rewrite Hr.
  unfold bind at 1.
  destruct (eligible r) eqn:He.
  - destruct Hf as [|Hf]; [congruence|].
    destruct (Cache_Get (clock s) (cacheKey r) (store s)) as [[b ok] c] eqn:Hc.
    simpl in Hf; subst ok.
    by rewrite (lookup_miss req s r b c).
  - done.
Qed.

Lemma forward_pass t req cacheable s r resp err resps now :
  requests s !! req = Some r ->
  transport_of t req (sent r) (responses s) (clock s)
    = ((resp, err), resps, now) ->
  (cacheable = false \/ err <> None \/
   exists l o, resp = Some l /\ resps !! l = Some o /\
               Response.StatusCode o = StatusNotModified) ->
  forward t req cacheable s =
    (if reply_ok resps (resp, err) then Done (resp, err)
     else Panic nilDeref,
     answered req r s resps now).
Proof.
  intros Hr Ht Hwhy. unfold answered, sent in *.
  unfold_go. exec.
  destruct err as [e|]; simpl; [done|].
  destruct (resp ≫= _) as [o|] eqn:Ho; simpl.
  - destruct Hwhy as [->|[?|(l & o' & -> & Hl & H304)]]; [|done|].
    + by case_bool_decide.
    + simpl in Ho. rewrite Hl in Ho. injection Ho as <-.
      by rewrite bool_decide_eq_true_2.
  - done.
Qed.

Lemma forward_dump_fails t req s r l o resps now body e :
  requests s !! req = Some r ->
  transport_of t req (sent r) (responses s) (clock s)
    = ((Some l, None), resps, now) ->
  resps !! l = Some o ->
  Response.StatusCode o <> StatusNotModified ->
  dumpResponse o = (body, inr e) ->
  forward t req true s =
    (Done (Some l, None),
     mkState (<[req := sent r]> (requests s))
       (<[l := Response.with_Body body o]> resps) (store s) now
       (trace s ++ [EvRoundTrip req (sent r);
                    EvPrintf ("[ERROR] " ++ e ++ newline)])).
Proof.
  intros Hr Ht Hl Hcode Hdump. unfold sent in *.
  unfold_go. exec. rewrite bool_decide_eq_false_2 by done.
  exec. by rewrite <- app_assoc.
Qed.

Lemma forward_stored t req s r l o resps now body respBytes :
  requests s !! req = Some r ->
  transport_of t req (sent r) (responses s) (clock s)
    = ((Some l, None), resps, now) ->
  resps !! l = Some o ->
  Response.StatusCode o <> StatusNotModified ->
  dumpResponse o = (body, inl respBytes) ->
  let s' :=
    mkState (<[req := sent r]> (requests s))
      (<[l := Response.with_Body body o]> resps)
      (Cache_Set now (cacheKey r) respBytes (store s)) now
      (trace s ++ [EvRoundTrip req (sent r);
                   EvCacheSet (cacheKey r) respBytes]) in
  forward t req true s = bytesToResp readResponse respBytes req s'.
Proof.
  intros Hr Ht Hl Hcode Hdump. unfold sent in *.
  unfold_go. exec. rewrite bool_decide_eq_false_2 by done.
  exec. by rewrite <- app_assoc.
Qed.

Lemma bytesToResp_run b req s r :
  requests s !! req = Some r ->
  bytesToResp readResponse b req s =
    match readResponse b r with
    | inl o =>
        (Done (Some (fresh (dom (responses s))), None),
         mkState (requests s)
           (<[fresh (dom (responses s)) :=
                Response.with_Request (Some req) o]> (responses s))
           (store s) (clock s) (trace s))
    | inr e => (Done (None, Some e), s)
    end.
Proof. intros Hr. unfold_go. exec. by destruct (readResponse b r). Qed.

Lemma after_lookup_frame r s :
  requests (after_lookup r s) = requests s /\
  responses (after_lookup r s) = responses s /\
  clock (after_lookup r s) = clock s.
Proof. unfold after_lookup. by destruct (eligible r). Qed.


(** C1, as amended.  A request whose method is neither GET nor HEAD, and
    a GET or HEAD request whose Range header has a non-empty first value
    (the value [Header.Get] reports), goes straight to the underlying
    transport and gets its reply back: the store is not called (no Get,
    no Set), so it is as before and the only new event is the round
    trip.  (A reply with neither an error nor a response breaks the
    transport's contract and makes [RoundTrip] panic on
    [resp.StatusCode].) *)
Theorem RoundTrip_ineligible_bypasses_cache
    t req s r resp err resps now :
  requests s !! req = Some r ->
  (Request.Method r <> "GET" /\ Request.Method r <> "HEAD") \/
  has_header (Request.Header r) "Range" ->
  transport_of t req (sent r) (responses s) (clock s)
    = ((resp, err), resps, now) ->
  exists s',
    RoundTrip t req s =
      (if reply_ok resps (resp, err) then Done (resp, err)
       else Panic nilDeref, s') /\
    store s' = store s /\
    trace s' = (trace s ++ [EvRoundTrip req (sent r)])%list /\
    responses s' = resps.
Proof.
  intros Hr Hwhy Ht. apply eligible_false in Hwhy.
  rewrite (RoundTrip_forwarded t req s r) by (done || by left).
  rewrite Hwhy. unfold after_lookup. rewrite Hwhy.
  rewrite (forward_pass t req false s r resp err resps now) by auto.
  by eexists.
Qed.

(** C2.  For a GET or HEAD request without a Range header for which the
    store returns a value that parses, [RoundTrip] returns a new
    response object built from the stored bytes, whose [Request] is the
    caller's request and whose X-Aproxy-From-Cache field is 1; the
    underlying transport is not called. *)
Theorem RoundTrip_cache_hit t req s r b c o :
  requests s !! req = Some r ->
  Request.Method r = "GET" \/ Request.Method r = "HEAD" ->
  ~ has_header (Request.Header r) "Range" ->
  Cache_Get (clock s) (cacheKey r) (store s) = ((b, true), c) ->
  readResponse b r = inl o ->
  exists p s',
    RoundTrip t req s = (Done (Some p, None), s') /\
    responses s !! p = None /\
    responses s' !! p = Some (served req o) /\
    Response.Request (served req o) = Some req /\
    Header_Get (Response.Header (served req o)) XFromCache = "1" /\
    Response.StatusCode (served req o) = Response.StatusCode o /\
    Response.Body (served req o) = Response.Body o /\
    trace s' =
      (trace s ++ [EvCacheGet (cacheKey r);
                   EvPrintf ("[from-cache] " ++ Request.URL r ++ newline)])%list /\
    requests s' = requests s /\ store s' = c.
Proof.
  intros Hr Hm Hrange Hc Ho.
  assert (eligible r = true) as He by (by apply eligible_true).
  exists (fresh (dom (responses s))). eexists. split.
  - rewrite RoundTrip_eq. unfold bind at 1. unfold load_req at 1.
    rewrite Hr, He. unfold bind at 1.
    rewrite (lookup_hit req s r b c o) by done.
    unfold bind, Printf, emit, ret. simpl. by rewrite <- app_assoc.
  - simpl. split_and!; try done.
    + apply not_elem_of_dom, is_fresh.
    + by rewrite lookup_insert_eq.
    + unfold served. simpl. apply Header_Get_Set.
Qed.

(** C7.  For a GET or HEAD request without a Range header for which the
    store returns bytes that do not parse, [RoundTrip] panics with the
    parse error, right after the Get: the underlying transport is not
    called. *)
Theorem RoundTrip_corrupt_entry_panics t req s r b c e :
  requests s !! req = Some r ->
  Request.Method r = "GET" \/ Request.Method r = "HEAD" ->
  ~ has_header (Request.Header r) "Range" ->
  Cache_Get (clock s) (cacheKey r) (store s) = ((b, true), c) ->
  readResponse b r = inr e ->
  RoundTrip t req s =
    (Panic e,
     mkState (requests s) (responses s) c (clock s)
       (trace s ++ [EvCacheGet (cacheKey r)])).
Proof.
  intros Hr Hm Hrange Hc Ho.
  assert (eligible r = true) as He by (by apply eligible_true).
  rewrite RoundTrip_eq. unfold bind at 1. unfold load_req at 1.
  rewrite Hr, He. unfold bind at 1.
  by rewrite (lookup_corrupt req s r b c e).
Qed.


(** C5.  On the forwarding path, when the underlying transport returns
    an error, or a response with status 304, [RoundTrip] returns the
    transport's pair [(resp, err)] as it is and the store is not
    written: the only event after the lookup is the round trip, and
    the response objects are as the transport left them.  This does not
    depend on the request being eligible. *)
Theorem RoundTrip_error_or_304_not_cached t req s r resp err resps now :
  requests s !! req = Some r ->
  forwarded r s ->
  transport_of t req (sent r) (responses s) (clock s)
    = ((resp, err), resps, now) ->
  err <> None \/
  (exists l o, resp = Some l /\ resps !! l = Some o /\
               Response.StatusCode o = StatusNotModified) ->
  exists s',
    RoundTrip t req s = (Done (resp, err), s') /\
    store s' = store (after_lookup r s) /\
    trace s' = (trace (after_lookup r s) ++ [EvRoundTrip req (sent r)])%list /\
    Forall (fun e => is_Set e = false)
      (drop (List.length (trace s)) (trace s')) /\
    responses s' = resps.
Proof.
  intros Hr Hf Ht Hwhy.
  rewrite (RoundTrip_forwarded t req s r) by done.
  destruct (after_lookup_frame r s) as (Hreqs & Hresps & Hclock).
  rewrite (forward_pass t req (eligible r) (after_lookup r s) r
             resp err resps now); [|by rewrite Hreqs| |by right].
  2: { by rewrite Hresps, Hclock. }
  assert (reply_ok resps (resp, err) = true) as ->.
  { destruct Hwhy as [?|(l & o & -> & Hl & _)].
    - by destruct err.
    - destruct err; [done|]. simpl. rewrite Hl.
      by apply bool_decide_eq_true_2. }
  eexists. split; [done|]. simpl. split_and!; try done.
  unfold after_lookup. destruct (eligible r); simpl.
  - rewrite <- app_assoc, drop_app_length. by repeat constructor.
  - rewrite drop_app_length. by repeat constructor.
Qed.

Lemma after_lookup_miss r s b c :
  eligible r = true ->
  Cache_Get (clock s) (cacheKey r) (store s) = ((b, false), c) ->
  forwarded r s /\
  after_lookup r s =
    mkState (requests s) (responses s) c (clock s)
      (trace s ++ [EvCacheGet (cacheKey r)]).
Proof.
  intros He Hc. unfold forwarded, after_lookup. rewrite He, Hc. auto.
Qed.

(** C6.  For a GET or HEAD request without a Range header that misses
    the store and whose forward succeeds (no error, a status other than
    304), when dumping the response fails [RoundTrip] returns the
    transport's own response object and a nil error; the failure is
    printed, the store is not written (it is as the lookup left it). *)
Theorem RoundTrip_dump_failure_not_fatal
    t req s r b c l o resps now body e :
  requests s !! req = Some r ->
  Request.Method r = "GET" \/ Request.Method r = "HEAD" ->
  ~ has_header (Request.Header r) "Range" ->
  Cache_Get (clock s) (cacheKey r) (store s) = ((b, false), c) ->
  transport_of t req (sent r) (responses s) (clock s)
    = ((Some l, None), resps, now) ->
  resps !! l = Some o ->
  Response.StatusCode o <> StatusNotModified ->
  dumpResponse o = (body, inr e) ->
  exists s',
    RoundTrip t req s = (Done (Some l, None), s') /\
    store s' = c /\
    trace s' =
      (trace s ++ [EvCacheGet (cacheKey r); EvRoundTrip req (sent r);
                   EvPrintf ("[ERROR] " ++ e ++ newline)])%list /\
    responses s' = <[l := Response.with_Body body o]> resps.
Proof.
  intros Hr Hm Hrange Hc Ht Hl Hcode Hdump.
  assert (eligible r = true) as He by (by apply eligible_true).
  destruct (after_lookup_miss r s b c He Hc) as [Hf Hs1].
  rewrite (RoundTrip_forwarded t req s r) by done.
  rewrite He, Hs1.
  rewrite (forward_dump_fails t req _ r l o resps now body e) by done.
  eexists. split; [done|]. simpl. by rewrite <- app_assoc.
Qed.

(** C8.  For a GET or HEAD request without a Range header that misses
    the store and whose forward succeeds (no error, a status other than
    304), when dumping the response succeeds [RoundTrip] sets the store
    at the cache key to the dumped bytes and returns what parsing those
    same bytes gives: on success a new response object, other than the
    transport's, tied to the caller's request. *)
Theorem RoundTrip_stores_and_rereads
    t req s r b c l o resps now body respBytes :
  requests s !! req = Some r ->
  Request.Method r = "GET" \/ Request.Method r = "HEAD" ->
  ~ has_header (Request.Header r) "Range" ->
  Cache_Get (clock s) (cacheKey r) (store s) = ((b, false), c) ->
  transport_of t req (sent r) (responses s) (clock s)
    = ((Some l, None), resps, now) ->
  resps !! l = Some o ->
  Response.StatusCode o <> StatusNotModified ->
  dumpResponse o = (body, inl respBytes) ->
  exists s1,
    RoundTrip t req s = bytesToResp readResponse respBytes req s1 /\
    store s1 = Cache_Set now (cacheKey r) respBytes c /\
    trace s1 =
      (trace s ++ [EvCacheGet (cacheKey r); EvRoundTrip req (sent r);
                   EvCacheSet (cacheKey r) respBytes])%list /\
    forall o2, readResponse respBytes (sent r) = inl o2 ->
      exists p s',
        RoundTrip t req s = (Done (Some p, None), s') /\
        p <> l /\
        responses s' !! p = Some (Response.with_Request (Some req) o2) /\
        responses s' !! l = Some (Response.with_Body body o) /\
        store s' = store s1 /\ trace s' = trace s1.
Proof.
  intros Hr Hm Hrange Hc Ht Hl Hcode Hdump.
  assert (eligible r = true) as He by (by apply eligible_true).
  destruct (after_lookup_miss r s b c He Hc) as [Hf Hs1].
  rewrite (RoundTrip_forwarded t req s r) by done.
  rewrite He, Hs1.
  rewrite (forward_stored t req _ r l o resps now body respBytes) by done.
  eexists. split; [done|]. simpl. split_and!.
  - done.
  - by rewrite <- app_assoc.
  - intros o2 Ho2.
    rewrite (bytesToResp_run _ _ _ (sent r)) by (simpl; apply lookup_insert_eq).
    rewrite Ho2. simpl.
    set (p := fresh (dom (<[l:=Response.with_Body body o]> resps))).
    assert (p <> l) as Hpl.
    { intros Heq. apply (is_fresh (dom (<[l:=Response.with_Body body o]> resps))).
      fold p. rewrite Heq. apply elem_of_dom. rewrite lookup_insert_eq. eauto. }
    exists p. eexists. split; [done|]. simpl. split_and!; try done.
    + by rewrite lookup_insert_eq.
    + rewrite lookup_insert_ne by done. by rewrite lookup_insert_eq.
Qed.

(** Where the header fields of a response returned by the forwarding
    path come from: the parse of the bytes just stored, or the transport. *)
Lemma forward_header_origin t req cacheable s r p err s' o :
  requests s !! req = Some r ->
  forward t req cacheable s = (Done (Some p, err), s') ->
  responses s' !! p = Some o ->
  (exists b o0,
     readResponse b (sent r) = inl o0 /\
     EvCacheSet (cacheKey r) b ∈ trace s' /\
     Response.Header o = Response.Header o0) \/
  (exists resps now o1,
     transport_of t req (sent r) (responses s) (clock s)
       = ((Some p, err), resps, now) /\
     resps !! p = Some o1 /\
     Response.Header o = Response.Header o1).
Proof.
  intros Hr. unfold sent. unfold_go. exec.
  destruct (transport_of _ _ _ _ _) as [[[resp err'] resps] now] eqn:Ht.
  simpl.
  repeat (case_match; simplify_eq; exec);
    intros Heq Ho; simplify_eq; simpl in *;
    try (rewrite lookup_insert_eq in Ho; simplify_eq; simpl).
  all: try (by right; eauto 10).
  all: left; do 2 eexists; split_and!; [eassumption| |done].
  all: apply elem_of_app; right; apply list_elem_of_singleton; done.
Qed.

(** C3, as amended.  [RoundTrip] never sets X-Aproxy-Cacheable.  The
    response it returns is, as far as header fields go, one of
    - the parse of the bytes the store returned, with X-Aproxy-From-Cache
      set to 1 and nothing else changed (a hit);
    - the parse of the bytes it has just stored;
    - the response of the underlying transport, as it is.
    So its X-Aproxy-Cacheable field is the one of the response it comes
    from. *)
Theorem RoundTrip_never_sets_XCacheable t req s r p err s' o :
  requests s !! req = Some r ->
  RoundTrip t req s = (Done (Some p, err), s') ->
  responses s' !! p = Some o ->
  (exists b c o0,
     Cache_Get (clock s) (cacheKey r) (store s) = ((b, true), c) /\
     readResponse b r = inl o0 /\
     Response.Header o = Header_Set (Response.Header o0) XFromCache "1" /\
     Response.Header o !! XCacheable = Response.Header o0 !! XCacheable) \/
  (exists b o0,
     readResponse b (sent r) = inl o0 /\
     EvCacheSet (cacheKey r) b ∈ trace s' /\
     Response.Header o = Response.Header o0) \/
  (exists resps now o1,
     transport_of t req (sent r) (responses s) (clock s)
       = ((Some p, err), resps, now) /\
     resps !! p = Some o1 /\
     Response.Header o = Response.Header o1).
Proof.
  intros Hr Hrun Ho.
  destruct (eligible r) eqn:He;
    [destruct (Cache_Get (clock s) (cacheKey r) (store s))
       as [[b [|]] c] eqn:Hc|].
  - (* a hit *)
    rewrite RoundTrip_eq in Hrun. unfold bind at 1 in Hrun.
    unfold load_req at 1 in Hrun. rewrite Hr, He in Hrun.
    unfold bind at 1 in Hrun.
    destruct (readResponse b r) as [o0|e] eqn:Hparse.
    + rewrite (lookup_hit req s r b c o0) in Hrun by done.
      unfold bind, Printf, emit, ret in Hrun. simpl in Hrun.
      injection Hrun as <- <- <-. simpl in Ho.
      rewrite lookup_insert_eq in Ho. injection Ho as <-.
      left. exists b, c, o0. split_and!; try done.
      unfold served, Header_Set. simpl.
      by rewrite lookup_insert_ne.
    + by rewrite (lookup_corrupt req s r b c e) in Hrun.
  - (* a miss *)
    destruct (after_lookup_miss r s b c He Hc) as [Hf Hs1].
    rewrite (RoundTrip_forwarded t req s r) in Hrun by done.
    rewrite Hs1 in Hrun. right.
    eapply forward_header_origin in Hrun; [|exact Hr|exact Ho]. done.
  - (* not eligible *)
    rewrite (RoundTrip_forwarded t req s r) in Hrun by (done || by left).
    unfold after_lookup in Hrun. rewrite He in Hrun. right.
    eapply forward_header_origin in Hrun; [|exact Hr|exact Ho]. done.
Qed.
End transport_facts.

(** * Runs of the test doubles *)

Section runs.
Local Open Scope positive_scope.

Abbreviation demo_RoundTrip :=
  (RoundTrip Demo.unreachable Demo.readResponse Demo.dumpResponse).

Lemma no_Range_in_empty : ~ has_header ∅ "Range".
Proof. intros (v & vs & H & _). by rewrite lookup_empty in H. Qed.

Lemma RoundTrip_ineligible_bypasses_cache_witness :
  (exists s',
     Demo.run (Demo.origin 200 ∅ Demo.hello) Demo.post Demo.empty_cache
       = (Done (Some 1, None), s') /\
     store s' = Demo.empty_cache /\
     trace s' = [EvRoundTrip 1 Demo.post]) /\
  (exists s',
     Demo.run (Demo.origin 206 ∅ Demo.hello) Sample.range_get
       (Demo.cache_with Demo.dhello)
       = (Done (Some 1, None), s') /\
     store s' = Demo.cache_with Demo.dhello /\
     trace s' = [EvRoundTrip 1 Sample.range_get]).
Proof.
  split.
  - destruct (RoundTrip_ineligible_bypasses_cache
                Demo.unreachable Demo.readResponse Demo.dumpResponse
                (Demo.via (Demo.origin 200 ∅ Demo.hello)) 1
                (Demo.start Demo.post Demo.empty_cache) Demo.post
                (Some 1) None
                {[1 := Response.mk 200 ∅ Demo.hello (Some 1)]} 1005%Z)
      as (s' & Hrun & Hstore & Htrace & _).
    + reflexivity.
    + left. split; discriminate.
    + reflexivity.
    + exists s'. split_and!; [exact Hrun|exact Hstore|exact Htrace].
  - destruct (RoundTrip_ineligible_bypasses_cache
                Demo.unreachable Demo.readResponse Demo.dumpResponse
                (Demo.via (Demo.origin 206 ∅ Demo.hello)) 1
                (Demo.start Sample.range_get (Demo.cache_with Demo.dhello))
                Sample.range_get (Some 1) None
                {[1 := Response.mk 206 ∅ Demo.hello (Some 1)]} 1005%Z)
      as (s' & Hrun & Hstore & Htrace & _).
    + reflexivity.
    + right. exists "bytes=0-10", []. split; [reflexivity|discriminate].
    + reflexivity.
    + exists s'. split_and!; [exact Hrun|exact Hstore|exact Htrace].
Defined.

(** C1, as stated, fails.  A GET whose Range header has an empty first
    value and a range after it carries a Range header; [Header.Get] reads
    the first value only, so the request is eligible: the store is
    consulted, and the answer of the origin is stored. *)
Lemma RoundTrip_Range_with_empty_first_value_is_cached :
  Request.Method Sample.blank_range_get = "GET" /\
  Request.Header Sample.blank_range_get !! "Range"
    = Some [""; "bytes=0-10"] /\
  exists s',
    Demo.run (Demo.origin 200 ∅ Demo.hello) Sample.blank_range_get
      Demo.empty_cache
      = (Done (Some 2, None), s') /\
    trace s' =
      [EvCacheGet Demo.url; EvRoundTrip 1 Sample.blank_range_get;
       EvCacheSet Demo.url Demo.dhello] /\
    items (store s') !! Demo.url = Some Demo.dhello.
Proof.
  split; [reflexivity|]. split; [reflexivity|].
  eexists. split; [vm_compute; reflexivity|]. split; reflexivity.
Qed.

Lemma RoundTrip_cache_hit_witness :
  exists p s',
    Demo.run Demo.unreachable Demo.get (Demo.cache_with Demo.dhello)
      = (Done (Some p, None), s') /\
    responses s' !! p
      = Some (Response.mk 200 {[XFromCache := ["1"]]} Demo.hello (Some 1)) /\
    Forall (fun e => is_RoundTrip e = false) (trace s').
Proof.
  destruct (RoundTrip_cache_hit
              Demo.unreachable Demo.readResponse Demo.dumpResponse
              (Demo.via Demo.unreachable) 1
              (Demo.start Demo.get (Demo.cache_with Demo.dhello)) Demo.get
              Demo.dhello (Demo.cache_with Demo.dhello)
              (Response.mk 200 ∅ Demo.hello None))
    as (p & s' & Hrun & _ & Hobj & _ & _ & _ & _ & Htrace & _).
  - reflexivity.
  - by left.
  - exact no_Range_in_empty.
  - reflexivity.
  - reflexivity.
  - exists p, s'. split_and!; [exact Hrun|exact Hobj|].
    rewrite Htrace. by repeat constructor.
Defined.

Lemma RoundTrip_corrupt_entry_panics_witness :
  fst (Demo.run (Demo.origin 200 ∅ Demo.hello) Demo.get (Demo.cache_with []))
    = Panic "unexpected EOF" /\
  trace (snd (Demo.run (Demo.origin 200 ∅ Demo.hello) Demo.get
                (Demo.cache_with [])))
    = [EvCacheGet Demo.url].
Proof.
  unfold Demo.run.
  rewrite (RoundTrip_corrupt_entry_panics
             Demo.unreachable Demo.readResponse Demo.dumpResponse
             (Demo.via (Demo.origin 200 ∅ Demo.hello)) 1
             (Demo.start Demo.get (Demo.cache_with [])) Demo.get
             [] (Demo.cache_with []) "unexpected EOF").
  - split; reflexivity.
  - reflexivity.
  - by left.
  - exact no_Range_in_empty.
  - reflexivity.
  - reflexivity.
Defined.


Lemma RoundTrip_error_or_304_not_cached_witness :
  (exists s',
     Demo.run Demo.unreachable Demo.get Demo.empty_cache
       = (Done (None, Some "connection refused"), s') /\
     store s' = Demo.empty_cache) /\
  (exists s',
     Demo.run (Demo.origin 304 ∅ []) Demo.get Demo.empty_cache
       = (Done (Some 1, None), s') /\
     store s' = Demo.empty_cache /\
     responses s' = {[1 := Response.mk 304 ∅ [] (Some 1)]}).
Proof.
  split.
  - destruct (RoundTrip_error_or_304_not_cached
                Demo.unreachable Demo.readResponse Demo.dumpResponse
                (Demo.via Demo.unreachable) 1
                (Demo.start Demo.get Demo.empty_cache) Demo.get
                None (Some "connection refused") ∅ 1001%Z)
      as (s' & Hrun & Hstore & _).
    + reflexivity.
    + by right.
    + reflexivity.
    + by left.
    + exists s'. split; [exact Hrun|exact Hstore].
  - destruct (RoundTrip_error_or_304_not_cached
                Demo.unreachable Demo.readResponse Demo.dumpResponse
                (Demo.via (Demo.origin 304 ∅ [])) 1
                (Demo.start Demo.get Demo.empty_cache) Demo.get
                (Some 1) None {[1 := Response.mk 304 ∅ [] (Some 1)]} 1005%Z)
      as (s' & Hrun & Hstore & _ & _ & Hresps).
    + reflexivity.
    + by right.
    + reflexivity.
    + right. by exists 1, (Response.mk 304 ∅ [] (Some 1)).
    + exists s'. split_and!; [exact Hrun|exact Hstore|exact Hresps].
Defined.

Lemma RoundTrip_dump_failure_not_fatal_witness :
  exists s',
    Demo.run (Demo.origin 999 ∅ Demo.hello) Demo.get Demo.empty_cache
      = (Done (Some 1, None), s') /\
    store s' = Demo.empty_cache /\
    trace s' =
      [EvCacheGet Demo.url; EvRoundTrip 1 Demo.get;
       EvPrintf ("[ERROR] malformed status code" ++ newline)].
Proof.
  destruct (RoundTrip_dump_failure_not_fatal
              Demo.unreachable Demo.readResponse Demo.dumpResponse
              (Demo.via (Demo.origin 999 ∅ Demo.hello)) 1
              (Demo.start Demo.get Demo.empty_cache) Demo.get
              [] Demo.empty_cache 1 (Response.mk 999 ∅ Demo.hello (Some 1))
              {[1 := Response.mk 999 ∅ Demo.hello (Some 1)]} 1005%Z
              Demo.hello "malformed status code")
    as (s' & Hrun & Hstore & Htrace & _).
  - reflexivity.
  - by left.
  - exact no_Range_in_empty.
  - reflexivity.
  - reflexivity.
  - reflexivity.
  - discriminate.
  - reflexivity.
  - exists s'. split_and!; [exact Hrun|exact Hstore|exact Htrace].
Defined.

Lemma RoundTrip_stores_and_rereads_witness :
  exists p s',
    Demo.run (Demo.origin 200 ∅ Demo.hello) Demo.get Demo.empty_cache
      = (Done (Some p, None), s') /\
    p <> 1 /\
    responses s' !! p = Some (Response.mk 200 ∅ Demo.hello (Some 1)) /\
    items (store s') !! Demo.url = Some Demo.dhello /\
    ts (store s') !! Demo.url = Some 1005%Z.
Proof.
  destruct (RoundTrip_stores_and_rereads
              Demo.unreachable Demo.readResponse Demo.dumpResponse
              (Demo.via (Demo.origin 200 ∅ Demo.hello)) 1
              (Demo.start Demo.get Demo.empty_cache) Demo.get
              [] Demo.empty_cache 1 (Response.mk 200 ∅ Demo.hello (Some 1))
              {[1 := Response.mk 200 ∅ Demo.hello (Some 1)]} 1005%Z
              Demo.hello Demo.dhello)
    as (s1 & _ & Hstore & _ & Hreread).
  - reflexivity.
  - by left.
  - exact no_Range_in_empty.
  - reflexivity.
  - reflexivity.
  - reflexivity.
  - discriminate.
  - reflexivity.
  - destruct (Hreread (Response.mk 200 ∅ Demo.hello None) eq_refl)
      as (p & s' & Hrun & Hne & Hobj & _ & Hstore' & _).
    exists p, s'. rewrite Hstore', Hstore.
    split_and!; [exact Hrun|exact Hne|exact Hobj|reflexivity|reflexivity].
Defined.

Lemma RoundTrip_never_sets_XCacheable_witness :
  (exists b c o0,
     MemoryCache_Get 1000%Z Demo.url Demo.empty_cache = ((b, true), c) /\
     Demo.readResponse b Demo.post = inl o0 /\
     (∅ : Header) = Header_Set (Response.Header o0) XFromCache "1" /\
     (∅ : Header) !! XCacheable = Response.Header o0 !! XCacheable) \/
  (exists b o0,
     Demo.readResponse b (sent Demo.post) = inl o0 /\
     EvCacheSet Demo.url b ∈ [EvRoundTrip 1 Demo.post] /\
     (∅ : Header) = Response.Header o0) \/
  (exists resps now o1,
     Demo.origin 200 ∅ Demo.hello 1 (sent Demo.post) ∅ 1000%Z
       = ((Some 1, None), resps, now) /\
     resps !! 1 = Some o1 /\
     (∅ : Header) = Response.Header o1).
Proof.
  refine (RoundTrip_never_sets_XCacheable
           Demo.unreachable Demo.readResponse Demo.dumpResponse
           (Demo.via (Demo.origin 200 ∅ Demo.hello)) 1
           (Demo.start Demo.post Demo.empty_cache) Demo.post 1 None
           (mkState {[1 := Demo.post]}
              {[1 := Response.mk 200 ∅ Demo.hello (Some 1)]}
              Demo.empty_cache 1005%Z [EvRoundTrip 1 Demo.post])
           (Response.mk 200 ∅ Demo.hello (Some 1)) _ _ _).
  - reflexivity.
  - reflexivity.
  - reflexivity.
Defined.

(** C3, as stated, fails.  A POST answered by an origin that sets no
    header field comes back without X-Aproxy-Cacheable, and so does a GET
    served from the store, which carries X-Aproxy-From-Cache only. *)
Lemma RoundTrip_response_without_XCacheable :
  (exists p s' o,
     Demo.run (Demo.origin 200 ∅ Demo.hello) Demo.post Demo.empty_cache
       = (Done (Some p, None), s') /\
     responses s' !! p = Some o /\
     Response.Header o !! XCacheable = None /\
     Header_Get (Response.Header o) XCacheable = "") /\
  (exists p s' o,
     Demo.run Demo.unreachable Demo.get (Demo.cache_with Demo.dhello)
       = (Done (Some p, None), s') /\
     responses s' !! p = Some o /\
     Response.Header o = {[XFromCache := ["1"]]} /\
     Response.Header o !! XCacheable = None /\
     Header_Get (Response.Header o) XCacheable = "").
Proof.
  split.
  - exists 1. eexists. exists (Response.mk 200 ∅ Demo.hello (Some 1)).
    split; [vm_compute; reflexivity|]. split_and!; reflexivity.
  - exists 1. eexists.
    exists (Response.mk 200 {[XFromCache := ["1"]]} Demo.hello (Some 1)).
    split; [vm_compute; reflexivity|]. split_and!; reflexivity.
Qed.

(** The scenario of the design document: a first GET goes to the origin
    and fills the store; a second one, 20 ns later and with the origin out
    of reach, is served from the store with the from-cache marker; a third
    one, after the TTL of 60 ns, finds the entry expired and fails with
    the transport's error. *)
Example second_GET_is_served_from_the_store :
  let s1 :=
    snd (Demo.run (Demo.origin 200 ∅ Demo.hello) Demo.get Demo.empty_cache) in
  let at_time (now : Z) :=
    mkState (requests s1) (responses s1) (store s1) now [] in
  (exists p s2 o,
     demo_RoundTrip (Demo.via Demo.unreachable) 1 (at_time 1025%Z)
       = (Done (Some p, None), s2) /\
     responses s2 !! p = Some o /\
     Response.Body o = Demo.hello /\
     Header_Get (Response.Header o) XFromCache = "1") /\
  (exists s2,
     demo_RoundTrip (Demo.via Demo.unreachable) 1 (at_time 1066%Z)
       = (Done (None, Some "connection refused"), s2) /\
     items (store s2) !! Demo.url = None).
Proof.
  split.
  - exists 3. eexists.
    exists (Response.mk 200 {[XFromCache := ["1"]]} Demo.hello (Some 1)).
    split; [vm_compute; reflexivity|]. split_and!; reflexivity.
  - eexists. split; [vm_compute; reflexivity|]. reflexivity.
Qed.
End runs.

Section store_runs.
Local Open Scope Z_scope.

Lemma MemoryCache_Get_expiry_witness :
  MemoryCache_Get 1051 Demo.url (Demo.cache_with Demo.hello)
    = (([], false), Demo.empty_cache) /\
  MemoryCache_Get 1050 Demo.url (Demo.cache_with Demo.hello)
    = ((Demo.hello, true), Demo.cache_with Demo.hello).
Proof.
  split.
  - destruct (MemoryCache_Get_expiry
                (Demo.cache_with Demo.hello) Demo.url Demo.hello 990 1051)
      as (_ & Hexpired & _); [reflexivity|reflexivity|].
    destruct Hexpired as (Hget & _); [reflexivity|].
    rewrite Hget. reflexivity.
  - destruct (MemoryCache_Get_expiry
                (Demo.cache_with Demo.hello) Demo.url Demo.hello 990 1050)
      as (_ & _ & Hfresh); [reflexivity|reflexivity|].
    apply Hfresh. discriminate.
Defined.

Lemma MemoryCache_keys_agree_witness :
  let ops := [OpSet 10 "a" Demo.hello; OpSet 20 "b" []; OpGet 75 "a";
              OpDelete "c"; OpGet 76 "b"; OpSet 90 "a" []] in
  dom (items (run_ops ops Demo.empty_cache))
    = dom (ts (run_ops ops Demo.empty_cache)).
Proof.
  intros ops.
  apply (MemoryCache_keys_agree 60 Demo.empty_cache ops).
  reflexivity.
Defined.
End store_runs.

(** * More properties of the in-memory store *)

Section memory_cache_more.
Implicit Types (c : MemoryCache) (key : string) (now t : Z) (resp : Bytes).

Lemma MemoryCache_ext c1 c2 :
  items c1 = items c2 -> ts c1 = ts c2 -> maxTTL c1 = maxTTL c2 -> c1 = c2.
Proof. destruct c1, c2; simpl; by intros -> -> ->. Qed.

Lemma Time_Sub_mono now now' t :
  now <= now' -> Time_Sub now t <= Time_Sub now' t.
Proof.
  intros Hle. unfold Time_Sub, maxDuration, minDuration.
  repeat case_match; lia.
Qed.

Lemma MemoryCache_Get_missing now key c :
  items c !! key = None -> MemoryCache_Get now key c = (([], false), c).
Proof. intros Hi. unfold MemoryCache_Get. by rewrite Hi. Qed.

(** X1.  [NewMemoryCache] panics exactly when the TTL is zero or
    negative; otherwise it returns a store with that TTL and no entry, in
    which every [Get] reports not-found and changes nothing. *)
Theorem NewMemoryCache_panics_or_empty ttl :
  (NewMemoryCache ttl = None <-> ttl <= 0) /\
  forall c, NewMemoryCache ttl = Some c ->
    0 < ttl /\ maxTTL c = ttl /\ items c = ∅ /\ ts c = ∅ /\
    forall now key, MemoryCache_Get now key c = (([], false), c).
Proof.
  unfold NewMemoryCache. destruct (Z.leb_spec ttl 0) as [Hle|Hlt].
  - split; [done|]. by intros c [=].
  - split; [split; [done|lia]|].
    intros c [= <-]. simpl. split_and!; try done.
Qed.

(** X2.  [Get] answers true only for an entry that is there and has not
    expired, and then leaves the store alone; when it answers false the
    bytes it returns are nil. *)
Theorem MemoryCache_Get_sound now key c resp ok c' :
  MemoryCache_Get now key c = ((resp, ok), c') ->
  (ok = true ->
     c' = c /\ items c !! key = Some resp /\
     Since now (default zeroTime (ts c !! key)) <= maxTTL c) /\
  (ok = false -> resp = []).
Proof.
  unfold MemoryCache_Get. intros Hget.
  destruct (items c !! key) as [v|] eqn:Hi; simpl in Hget.
  - destruct (maxTTL c <? _) eqn:Hcmp in Hget; simplify_eq.
    + split; [done|]. done.
    + apply Z.ltb_ge in Hcmp. split; [|done]. done.
  - simplify_eq. by split.
Qed.

(** X3.  [Get] is idempotent: asking again at the same time gives the
    same answer and the same store (an expired entry is deleted by the
    first call, and is just absent for the second). *)
Theorem MemoryCache_Get_idempotent now key c :
  MemoryCache_Get now key (snd (MemoryCache_Get now key c))
    = MemoryCache_Get now key c.
Proof.
  destruct (MemoryCache_Get now key c) as [[resp ok] c'] eqn:Hget.
  simpl. revert Hget. unfold MemoryCache_Get at 1.
  destruct (items c !! key) as [v|] eqn:Hi; simpl.
  - destruct (maxTTL c <? _) eqn:Hcmp; intros [= <- <- <-].
    + apply MemoryCache_Get_missing. simpl. apply lookup_delete_eq.
    + unfold MemoryCache_Get. rewrite Hi. simpl. by rewrite Hcmp.
  - intros [= <- <- <-]. by apply MemoryCache_Get_missing.
Qed.

Lemma MemoryCache_Get_after_Set now t key resp c :
  Since now t <= maxTTL c ->
  MemoryCache_Get now key (MemoryCache_Set t key resp c)
    = ((resp, true), MemoryCache_Set t key resp c).
Proof.
  intros Hfresh. unfold MemoryCache_Get. simpl.
  rewrite !lookup_insert_eq. simpl.
  by rewrite (proj2 (Z.ltb_ge _ _) Hfresh).
Qed.

Lemma MemoryCache_Get_expired now t key resp c :
  items c !! key = Some resp ->
  ts c !! key = Some t ->
  maxTTL c < Since now t ->
  MemoryCache_Get now key c = (([], false), MemoryCache_Delete key c).
Proof.
  intros Hi Ht Hexp. unfold MemoryCache_Get. rewrite Hi, Ht. simpl.
  by rewrite (proj2 (Z.ltb_lt _ _) Hexp).
Qed.

(** X4.  Round trip: a value written by [Set] at the time [t] is what
    [Get] returns as long as no more than the TTL has elapsed since [t],
    whatever the store held for the key before (the timestamp is reset by
    the write). *)
Theorem MemoryCache_Set_then_Get now t key resp c :
  Since now t <= maxTTL c ->
  MemoryCache_Get now key (MemoryCache_Set t key resp c)
    = ((resp, true), MemoryCache_Set t key resp c).
Proof.
  intros Hfresh. apply Z.ltb_ge in Hfresh.
  unfold MemoryCache_Get. simpl. rewrite !lookup_insert_eq. simpl.
  by rewrite Hfresh.
Qed.

(** X5.  The last write wins: a [Set] over a [Set] of the same key
    leaves the store as the second [Set] alone would. *)
Theorem MemoryCache_Set_overwrites t1 t2 key resp1 resp2 c :
  MemoryCache_Set t2 key resp2 (MemoryCache_Set t1 key resp1 c)
    = MemoryCache_Set t2 key resp2 c.
Proof. apply MemoryCache_ext; simpl; by rewrite ?insert_insert_eq. Qed.

(** X6.  After [Delete] the key is not found, at any time; deleting twice
    is deleting once; deleting a key written on a store that did not hold
    it gives that store back. *)
Theorem MemoryCache_Delete_removes now key c :
  MemoryCache_Get now key (MemoryCache_Delete key c)
    = (([], false), MemoryCache_Delete key c) /\
  MemoryCache_Delete key (MemoryCache_Delete key c) = MemoryCache_Delete key c /\
  forall t resp,
    items c !! key = None -> ts c !! key = None ->
    MemoryCache_Delete key (MemoryCache_Set t key resp c) = c.
Proof.
  split_and!.
  - apply MemoryCache_Get_missing. simpl. apply lookup_delete_eq.
  - apply MemoryCache_ext; simpl; by rewrite ?delete_delete_eq.
  - intros t resp Hi Ht.
    apply MemoryCache_ext; simpl; by rewrite ?delete_insert_id.
Qed.

(** X7.  A call about one key leaves every other key alone: its value,
    its timestamp, and what [Get] answers for it. *)
Theorem MemoryCache_other_keys_untouched op key now c :
  op_key op <> key ->
  items (run_op op c) !! key = items c !! key /\
  ts (run_op op c) !! key = ts c !! key /\
  fst (MemoryCache_Get now key (run_op op c))
    = fst (MemoryCache_Get now key c).
Proof.
  intros Hne.
  assert (items (run_op op c) !! key = items c !! key /\
          ts (run_op op c) !! key = ts c !! key /\
          maxTTL (run_op op c) = maxTTL c) as (Hi & Ht & Hm).
  { destruct op as [now' k|now' k v|k]; simpl in *.
    - unfold MemoryCache_Get. case_match; simpl; [|done].
      by rewrite !lookup_delete_ne.
    - by rewrite !lookup_insert_ne.
    - by rewrite !lookup_delete_ne. }
  split_and!; [done|done|].
  unfold MemoryCache_Get. rewrite Hi, Ht, Hm. by case_match.
Qed.

Lemma MemoryCache_Get_fresh now t key resp c :
  items c !! key = Some resp ->
  ts c !! key = Some t ->
  Since now t <= maxTTL c ->
  MemoryCache_Get now key c = ((resp, true), c).
Proof.
  intros Hi Ht Hfresh%Z.ltb_ge. unfold MemoryCache_Get. rewrite Hi, Ht. simpl.
  by rewrite Hfresh.
Qed.

(** X8.  The order of two writes to different keys shows in the
    timestamps only.  With [t1] the clock reading of the first call and
    [t2] that of the second, both orders store the same values, and each
    key gets the reading of its own call; as long as both writes are
    fresh, [Get] answers the same for every key in both orders. *)
Theorem MemoryCache_Set_order t1 t2 key1 key2 resp1 resp2 c :
  key1 <> key2 ->
  let a := MemoryCache_Set t2 key2 resp2 (MemoryCache_Set t1 key1 resp1 c) in
  let b := MemoryCache_Set t2 key1 resp1 (MemoryCache_Set t1 key2 resp2 c) in
  items a = items b /\
  (ts a !! key1 = Some t1 /\ ts a !! key2 = Some t2 /\
   ts b !! key1 = Some t2 /\ ts b !! key2 = Some t1) /\
  (forall key, key <> key1 -> key <> key2 -> ts a !! key = ts b !! key) /\
  (forall now key,
     Since now t1 <= maxTTL c -> Since now t2 <= maxTTL c ->
     fst (MemoryCache_Get now key a) = fst (MemoryCache_Get now key b)).
Proof.
  intros Hne a b. subst a b. simpl. split_and!.
  - by rewrite insert_insert_ne.
  - by rewrite lookup_insert_ne, lookup_insert_eq.
  - by rewrite lookup_insert_eq.
  - by rewrite lookup_insert_eq.
  - by rewrite lookup_insert_ne, lookup_insert_eq.
  - intros key H1 H2. by rewrite !lookup_insert_ne.
  - intros now key Hf1 Hf2.
    destruct (decide (key = key1)) as [->|Hk1];
      [|destruct (decide (key = key2)) as [->|Hk2]].
    + rewrite (MemoryCache_Get_fresh now t1 key1 resp1),
        (MemoryCache_Get_fresh now t2 key1 resp1); simpl; try done.
      * by rewrite lookup_insert_eq.
      * by rewrite lookup_insert_eq.
      * by rewrite lookup_insert_ne, lookup_insert_eq.
      * by rewrite lookup_insert_ne, lookup_insert_eq.
    + rewrite (MemoryCache_Get_fresh now t2 key2 resp2),
        (MemoryCache_Get_fresh now t1 key2 resp2); simpl; try done.
      * by rewrite lookup_insert_ne, lookup_insert_eq.
      * by rewrite lookup_insert_ne, lookup_insert_eq.
      * by rewrite lookup_insert_eq.
      * by rewrite lookup_insert_eq.
    + unfold MemoryCache_Get. simpl. rewrite !lookup_insert_ne by done.
      by case_match.
Qed.

(** X9.  No call changes the TTL: after any sequence of calls it is the
    one the store was made with, and positive. *)
Theorem MemoryCache_maxTTL_constant ttl c ops :
  NewMemoryCache ttl = Some c ->
  maxTTL (run_ops ops c) = ttl /\ 0 < maxTTL (run_ops ops c).
Proof.
  intros Hnew.
  assert (maxTTL c = ttl /\ 0 < ttl) as [Hc Hpos].
  { unfold NewMemoryCache in Hnew.
    destruct (Z.leb_spec ttl 0); [done|]. injection Hnew as <-. by simpl. }
  assert (maxTTL (run_ops ops c) = maxTTL c) as ->; [|by rewrite Hc].
  clear Hnew Hc. revert c.
  induction ops as [|op ops IH]; intros c; simpl; [done|].
  rewrite IH. destruct op; simpl; try done.
  unfold MemoryCache_Get. by case_match.
Qed.

(** X10.  Expiry is monotone in time: an entry that [Get] finds fresh at
    some time is found fresh, with the same bytes, at every earlier time
    (so an entry expired at some time is expired at every later one). *)
Theorem MemoryCache_fresh_earlier now now' key c resp :
  now <= now' ->
  fst (MemoryCache_Get now' key c) = (resp, true) ->
  MemoryCache_Get now key c = ((resp, true), c).
Proof.
  intros Hle. unfold MemoryCache_Get.
  destruct (items c !! key) as [v|] eqn:Hi; simpl; [|done].
  pose proof (Time_Sub_mono now now' (default zeroTime (ts c !! key)) Hle) as Hm.
  unfold Since.
  destruct (Z.ltb_spec (maxTTL c) (Time_Sub now' (default zeroTime (ts c !! key))));
    simpl; [done|].
  intros [= <-].
  destruct (Z.ltb_spec (maxTTL c) (Time_Sub now (default zeroTime (ts c !! key))));
    [lia|done].
Qed.
End memory_cache_more.

(** * More properties of the caching transport *)

Section transport_more.
Context {C : Type} `{!Cache C}.
Variable DefaultTransport : RoundTripper.
Variable readResponse : Bytes -> Request.t -> Response.t + Error.
Variable dumpResponse : Response.t -> Bytes * (Bytes + Error).

Abbreviation RoundTrip := (RoundTrip DefaultTransport readResponse dumpResponse).
Abbreviation forward := (forward DefaultTransport readResponse dumpResponse).
Abbreviation lookup := (lookup readResponse).
Abbreviation transport_of := (transport_of DefaultTransport).

Implicit Types (s : State C) (r : Request.t) (o : Response.t).

Lemma RoundTrip_nil_request t req s :
  requests s !! req = None -> RoundTrip t req s = (Panic nilDeref, s).
Proof.
  intros Hr. rewrite RoundTrip_eq. unfold bind at 1. unfold load_req at 1.
  by rewrite Hr.
Qed.

Lemma RoundTrip_eligible t req s r :
  requests s !! req = Some r ->
  eligible r = true ->
  RoundTrip t req s =
    (let* resp := lookup req in
     match resp with
     | Some _ =>
         Printf ("[from-cache] " ++ Request.URL r ++ newline) ;;
         ret (resp, None)
     | None => forward t req true
     end) s.
Proof.
  intros Hr He. rewrite RoundTrip_eq. unfold bind at 1. unfold load_req at 1.
  by rewrite Hr, He.
Qed.

(** What the forwarding path adds to the trace. *)
Lemma forward_events t req cacheable s r :
  requests s !! req = Some r ->
  exists post,
    trace (snd (forward t req cacheable s))
      = (trace s ++ EvRoundTrip req (sent r) :: post)%list /\
    (post = [] \/ (exists line, post = [EvPrintf line]) \/
     (cacheable = true /\ exists b, post = [EvCacheSet (cacheKey r) b])).
Proof.
  intros Hr. unfold sent. unfold_go. exec.
  destruct (transport_of _ _ _ _ _) as [[[resp err] resps] now]; simpl.
  repeat (case_match; simplify_eq; exec);
    eexists; (split; [by rewrite <- ?app_assoc|]);
    first [by left | by right; left; eauto | by right; right; eauto].
Qed.

(** X11.  [lookup] calls [Get] once, on the cache key of the request, and
    nothing else: it leaves the requests, the clock and the response
    objects there are alone, calls neither [Set] nor the underlying
    transport, and answers nil exactly when the store reports
    not-found. *)
Theorem lookup_only_gets req s r :
  requests s !! req = Some r ->
  trace (snd (lookup req s)) = (trace s ++ [EvCacheGet (cacheKey r)])%list /\
  store (snd (lookup req s))
    = snd (Cache_Get (clock s) (cacheKey r) (store s)) /\
  requests (snd (lookup req s)) = requests s /\
  clock (snd (lookup req s)) = clock s /\
  (forall q o, responses s !! q = Some o ->
     responses (snd (lookup req s)) !! q = Some o) /\
  (fst (lookup req s) = Done None <->
   snd (fst (Cache_Get (clock s) (cacheKey r) (store s))) = false).
Proof.
  intros Hr.
  destruct (Cache_Get (clock s) (cacheKey r) (store s)) as [[b ok] c] eqn:Hc.
  destruct ok.
  - destruct (readResponse b r) as [o0|e] eqn:Hparse.
    + rewrite (lookup_hit readResponse req s r b c o0) by done. simpl.
      split_and!; try done.
      intros q o Hq. rewrite lookup_insert_ne; [done|].
      intros <-. pose proof (is_fresh (dom (responses s))) as Hfresh.
      apply Hfresh, elem_of_dom. eauto.
    + rewrite (lookup_corrupt readResponse req s r b c e) by done. simpl.
      split_and!; done.
  - rewrite (lookup_miss readResponse req s r b c) by done. simpl.
    split_and!; done.
Qed.

(** The events of a whole run. *)
Lemma RoundTrip_events t req s r :
  requests s !! req = Some r ->
  exists evs,
    trace (snd (RoundTrip t req s)) = (trace s ++ evs)%list /\
    ((exists line, evs = [EvCacheGet (cacheKey r)] \/
                   evs = [EvCacheGet (cacheKey r); EvPrintf line]) \/
     (exists pre post,
        evs = (pre ++ EvRoundTrip req (sent r) :: post)%list /\
        (pre = [] \/ pre = [EvCacheGet (cacheKey r)]) /\
        (post = [] \/ (exists line, post = [EvPrintf line]) \/
         (pre = [EvCacheGet (cacheKey r)] /\
          exists b, post = [EvCacheSet (cacheKey r) b])))).
Proof.
  intros Hr.
  destruct (eligible r) eqn:He;
    [destruct (Cache_Get (clock s) (cacheKey r) (store s))
       as [[b [|]] c] eqn:Hc|].
  - rewrite (RoundTrip_eligible t req s r) by done. unfold bind at 1.
    destruct (readResponse b r) as [o0|e] eqn:Hparse.
    + rewrite (lookup_hit readResponse req s r b c o0) by done.
      unfold bind, Printf, emit, ret. simpl.
      eexists. split; [by rewrite <- app_assoc|]. left. eauto.
    + rewrite (lookup_corrupt readResponse req s r b c e) by done. simpl.
      eexists. split; [done|]. left. exists "". by left.
  - destruct (after_lookup_miss r s b c He Hc) as [Hf Hs1].
    rewrite (RoundTrip_forwarded _ _ _ t req s r) by done. rewrite Hs1, He.
    edestruct (forward_events t req true) as (post & -> & Hpost); [exact Hr|].
    simpl. exists ([EvCacheGet (cacheKey r)] ++ EvRoundTrip req (sent r) :: post)%list.
    split; [by rewrite <- app_assoc|]. right.
    exists [EvCacheGet (cacheKey r)], post. split_and!; [done|by right|].
    destruct Hpost as [?|[?|[_ ?]]]; auto.
  - rewrite (RoundTrip_forwarded _ _ _ t req s r) by (done || by left).
    unfold after_lookup. rewrite He.
    edestruct (forward_events t req false) as (post & -> & Hpost); [exact Hr|].
    exists (EvRoundTrip req (sent r) :: post). split; [done|]. right.
    exists [], post. split_and!; [done|by left|].
    destruct Hpost as [?|[?|[? _]]]; auto. done.
Qed.

(** X12.  One run of [RoundTrip] calls [Get] at most once and the
    underlying transport at most once, the latter with the caller's
    request object, stripped of If-None-Match; it calls [Set] only after
    both, that is after a miss and a round trip, and under the key it
    looked up. *)
Theorem RoundTrip_calls_at_most_once t req s r :
  requests s !! req = Some r ->
  exists evs,
    trace (snd (RoundTrip t req s)) = (trace s ++ evs)%list /\
    (List.length (List.filter is_Get evs) <= 1)%nat /\
    (List.length (List.filter is_RoundTrip evs) <= 1)%nat /\
    (forall q x, EvRoundTrip q x ∈ evs -> q = req /\ x = sent r) /\
    (forall k b, EvCacheSet k b ∈ evs ->
       evs = [EvCacheGet (cacheKey r); EvRoundTrip req (sent r);
              EvCacheSet (cacheKey r) b]).
Proof.
  intros Hr. destruct (RoundTrip_events t req s r Hr) as (evs & Htr & Hshape).
  exists evs. split; [done|].
  destruct Hshape as [(line & [->| ->])|(pre & post & -> & Hpre & Hpost)].
  - simpl. split_and!; [lia|lia| |];
      intros ? ? Hin; apply list_elem_of_singleton in Hin; done.
  - simpl. split_and!; [lia|lia| |]; intros ? ? Hin;
      repeat (apply elem_of_cons in Hin as [Hin|Hin]; [done|]);
      by apply elem_of_nil in Hin.
  - destruct Hpre as [->| ->];
      destruct Hpost as [->|[(line & ->)|(Hpre & b & ->)]];
      try discriminate Hpre; simpl; (split_and!; [lia|lia| |]);
      intros ? ? Hin;
      repeat (apply elem_of_cons in Hin as [Hin|Hin]; [by simplify_eq|]);
      by apply elem_of_nil in Hin.
Qed.

Lemma cloneRequest_run (r : loc) s q :
  requests s !! r = Some q ->
  cloneRequest r s =
    (Done (fresh (dom (requests s))),
     mkState (<[fresh (dom (requests s)) := q]> (requests s)) (responses s)
       (store s) (clock s) (trace s)).
Proof.
  intros Hr. unfold cloneRequest, bind, load_req. rewrite Hr. by destruct q.
Qed.

(** X14.  [cloneRequest] of a request makes a new request object with
    the same method, URL and header fields, and changes nothing else: the
    original is as before.  Of a nil request it panics. *)
Theorem cloneRequest_copies (r : loc) s :
  (requests s !! r = None -> @cloneRequest C r s = (Panic nilDeref, s)) /\
  (forall q, requests s !! r = Some q ->
     exists (r2 : loc) s',
       cloneRequest r s = (Done r2, s') /\
       r2 <> r /\ requests s !! r2 = None /\
       requests s' !! r2 = Some q /\ requests s' !! r = Some q /\
       dom (requests s') = {[r2]} ∪ dom (requests s) /\
       responses s' = responses s /\ store s' = store s /\
       clock s' = clock s /\ trace s' = trace s).
Proof.
  split.
  - intros Hr. unfold cloneRequest, bind, load_req. by rewrite Hr.
  - intros q Hr. rewrite (cloneRequest_run r s q Hr).
    pose proof (is_fresh (dom (requests s))) as Hfresh.
    assert (fresh (dom (requests s)) <> r) as Hne.
    { intros Heq. apply Hfresh. rewrite Heq. apply elem_of_dom. eauto. }
    eexists _, _. split; [done|]. simpl. split_and!; try done.
    + by apply not_elem_of_dom.
    + by rewrite lookup_insert_eq.
    + by rewrite lookup_insert_ne.
    + by rewrite dom_insert_L.
Qed.

(** X16.  An underlying transport that returns neither a response nor an
    error makes [RoundTrip] panic with a nil dereference, for a request
    that is forwarded, eligible or not. *)
Theorem RoundTrip_nil_reply_panics t req s r resps now :
  requests s !! req = Some r ->
  forwarded r s ->
  transport_of t req (sent r) (responses s) (clock s)
    = ((None, None), resps, now) ->
  fst (RoundTrip t req s) = Panic nilDeref /\
  store (snd (RoundTrip t req s)) = store (after_lookup r s).
Proof.
  intros Hr Hf Ht.
  rewrite (RoundTrip_forwarded _ _ _ t req s r) by done.
  destruct (after_lookup_frame r s) as (Hreqs & Hresps & Hclock).
  rewrite <- Hreqs in Hr. rewrite <- Hresps, <- Hclock in Ht.
  generalize dependent (after_lookup r s). intros s1 Hr Ht _ _ _.
  unfold sent in *. unfold_go. by exec.
Qed.
End transport_more.

(** * The transport over the in-memory store *)

Section transport_memory.
Variable DefaultTransport : RoundTripper.
Variable readResponse : Bytes -> Request.t -> Response.t + Error.
Variable dumpResponse : Response.t -> Bytes * (Bytes + Error).

Abbreviation RoundTrip := (RoundTrip DefaultTransport readResponse dumpResponse).
Abbreviation transport_of := (transport_of DefaultTransport).

Implicit Types (s : State MemoryCache) (r : Request.t).

(** X17.  Write, then read through the transport: when the in-memory
    store holds for the key of an eligible request bytes written, by
    [Set], no longer ago than the TTL, and they parse, [RoundTrip] serves
    the response from them, does not call the underlying transport and
    leaves the store as it is. *)
Theorem RoundTrip_served_within_TTL t req s r t0 b c0 o :
  requests s !! req = Some r ->
  Request.Method r = "GET" \/ Request.Method r = "HEAD" ->
  ~ has_header (Request.Header r) "Range" ->
  store s = MemoryCache_Set t0 (cacheKey r) b c0 ->
  Since (clock s) t0 <= maxTTL c0 ->
  readResponse b r = inl o ->
  exists (p : loc) s',
    RoundTrip t req s = (Done (Some p, None), s') /\
    responses s' !! p = Some (served req o) /\
    store s' = store s /\
    Forall (fun e => is_RoundTrip e = false)
      (drop (List.length (trace s)) (trace s')).
Proof.
  intros Hr Hm Hrange Hstore Hfresh Ho.
  assert (eligible r = true) as He by (by apply eligible_true).
  assert (Cache_Get (clock s) (cacheKey r) (store s) = ((b, true), store s))
    as Hc.
  { rewrite Hstore. by apply MemoryCache_Get_after_Set. }
  rewrite (RoundTrip_eligible _ _ _ t req s r) by done. unfold bind at 1.
  rewrite (lookup_hit readResponse req s r b (store s) o) by done.
  unfold bind, Printf, emit, ret. simpl.
  eexists _, _. split; [done|]. simpl. split_and!; [|done|].
  - by rewrite lookup_insert_eq.
  - rewrite <- app_assoc, drop_app_length. by repeat constructor.
Qed.

(** X18.  A stale entry is never served.  When the entry for the key of
    an eligible request is older than the TTL, [RoundTrip] forwards the
    request; if the underlying transport then fails, the caller gets that
    error, not the stale bytes, and the entry is gone from the store. *)
Theorem RoundTrip_stale_entry_not_served t req s r b t0 resp e resps now :
  requests s !! req = Some r ->
  Request.Method r = "GET" \/ Request.Method r = "HEAD" ->
  ~ has_header (Request.Header r) "Range" ->
  items (store s) !! cacheKey r = Some b ->
  ts (store s) !! cacheKey r = Some t0 ->
  maxTTL (store s) < Since (clock s) t0 ->
  transport_of t req (sent r) (responses s) (clock s)
    = ((resp, Some e), resps, now) ->
  exists s',
    RoundTrip t req s = (Done (resp, Some e), s') /\
    store s' = MemoryCache_Delete (cacheKey r) (store s) /\
    items (store s') !! cacheKey r = None /\
    trace s' = (trace s ++ [EvCacheGet (cacheKey r);
                            EvRoundTrip req (sent r)])%list.
Proof.
  intros Hr Hm Hrange Hi Hts Hexp Ht.
  assert (eligible r = true) as He by (by apply eligible_true).
  assert (Cache_Get (clock s) (cacheKey r) (store s)
          = (([], false), MemoryCache_Delete (cacheKey r) (store s))) as Hc.
  { by apply (MemoryCache_Get_expired _ t0 _ b). }
  destruct (after_lookup_miss r s _ _ He Hc) as [Hf Hs1].
  rewrite (RoundTrip_forwarded _ _ _ t req s r) by done.
  rewrite Hs1, He.
  rewrite (forward_pass _ _ _ t req true _ r resp (Some e) resps now);
    [|done|done|by right; left].
  eexists. split; [done|]. simpl. split_and!; [done| |by rewrite <- app_assoc].
  apply lookup_delete_eq.
Qed.
End transport_memory.

(** * Properties of [headerAllCommaSepValues] *)

Section comma_separated_values.
Variable TrimFunc_IsSpace : string -> string.
Variable TrimRightFunc_IsSpace : string -> string.

Abbreviation TrimSpace := (TrimSpace TrimFunc_IsSpace TrimRightFunc_IsSpace).
Abbreviation headerAllCommaSepValues :=
  (headerAllCommaSepValues TrimFunc_IsSpace TrimRightFunc_IsSpace).

Lemma Split_length s sep :
  List.length (Split s sep) = S (count_byte sep s).
Proof.
  induction s as [|c rest IH]; simpl; [done|].
  case_bool_decide; simpl; [by rewrite IH|].
  destruct (Split rest sep); simpl in *; [done|lia].
Qed.

Lemma Split_no_sep s sep :
  Forall (fun f => count_byte sep f = 0%nat) (Split s sep).
Proof.
  induction s as [|c rest IH]; simpl; [by repeat constructor|].
  case_bool_decide as Hc; [by constructor|].
  destruct (Split rest sep) as [|f fs].
  - repeat constructor. simpl. by rewrite bool_decide_eq_false_2.
  - inversion IH as [|? ? Hf Hfs]; subst. constructor; [|done].
    simpl. by rewrite bool_decide_eq_false_2, Hf.
Qed.

Lemma Split_ASCII s sep :
  all_ASCII s = true -> Forall (fun f => all_ASCII f = true) (Split s sep).
Proof.
  unfold all_ASCII.
  induction s as [|c rest IH]; simpl; [by repeat constructor|].
  intros [Hc Hrest]%andb_true_iff. specialize (IH Hrest).
  case_bool_decide; [by constructor|].
  destruct (Split rest sep) as [|f fs].
  - repeat constructor. simpl. by rewrite Hc.
  - inversion IH as [|? ? Hf Hfs]; subst. constructor; [|done].
    simpl. by rewrite Hc.
Qed.

Lemma Split_no_sep_id s sep : count_byte sep s = 0%nat -> Split s sep = [s].
Proof.
  induction s as [|c rest IH]; simpl; [done|].
  case_bool_decide; [done|]. intros Hrest. by rewrite IH.
Qed.

Lemma foldl_app_concat {A B} (f : B -> list A) (l : list B) (acc : list A) :
  foldl (fun vals val => (vals ++ f val)%list) acc l
    = (acc ++ List.concat (map f l))%list.
Proof.
  revert acc. induction l as [|x l IH]; intros acc; simpl.
  - by rewrite app_nil_r.
  - by rewrite IH, app_assoc.
Qed.

Lemma headerAllCommaSepValues_eq (headers : Header) name :
  headerAllCommaSepValues headers name
    = List.concat (map (fun val => map TrimSpace (Split val ","%char))
                (default [] (headers !! CanonicalHeaderKey name))).
Proof. unfold headerAllCommaSepValues. by rewrite foldl_app_concat. Qed.

Lemma last_rev {A} (l : list A) : last (rev l) = head l.
Proof. destruct l as [|x l]; simpl; [done|apply last_snoc]. Qed.

Lemma head_rev {A} (l : list A) : head (rev l) = last l.
Proof. rewrite <- (rev_involutive l) at 2. by rewrite last_rev. Qed.

Lemma count_byte_app c (a b : list ascii) :
  count_byte c (string_of_list_ascii (a ++ b))
    = (count_byte c (string_of_list_ascii a)
       + count_byte c (string_of_list_ascii b))%nat.
Proof. induction a as [|x a IH]; simpl; [done|]. rewrite IH. lia. Qed.

Lemma trim_start_ASCII s :
  all_ASCII s = true ->
  exists rest,
    trim_start s = inl rest /\
    all_ASCII rest = true /\
    (forall c, first_byte rest = Some c -> asciiSpace c = false) /\
    (forall c, (count_byte c rest <= count_byte c s)%nat) /\
    ((forall c, first_byte s = Some c -> asciiSpace c = false) -> rest = s).
Proof.
  unfold all_ASCII, first_byte.
  induction s as [|x s IH]; simpl.
  - intros _. exists EmptyString. by split_and!.
  - intros [Hx Hs]%andb_true_iff. rewrite Hx. simpl.
    destruct (asciiSpace x) eqn:Hsp.
    + destruct (IH Hs) as (rest & -> & Hascii & Hfirst & Hcount & _).
      exists rest. split_and!; try done.
      * intros c. specialize (Hcount c). lia.
      * intros Hns. specialize (Hns x eq_refl). congruence.
    + exists (String x s). split_and!; try done.
      * simpl. by rewrite Hx.
      * simpl. by intros c [= <-].
Qed.

Lemma trim_stop_ASCII (l : list ascii) :
  forallb is_ASCII l = true ->
  exists k l',
    trim_stop l = inl l' /\ l = (k ++ l')%list /\
    (forall c, head l' = Some c -> asciiSpace c = false) /\
    ((forall c, head l = Some c -> asciiSpace c = false) -> l' = l).
Proof.
  induction l as [|x l IH]; simpl.
  - intros _. exists [], []. by split_and!.
  - intros [Hx Hl]%andb_true_iff. rewrite Hx. simpl.
    destruct (asciiSpace x) eqn:Hsp.
    + destruct (IH Hl) as (k & l' & -> & -> & Hhead & _).
      exists (x :: k), l'. split_and!; try done.
      intros Hns. specialize (Hns x eq_refl). congruence.
    + exists [], (x :: l). split_and!; try done.
      simpl. by intros c [= <-].
Qed.

(** On a string of ASCII bytes [TrimSpace] gives a piece of it that
    neither starts nor ends with a space, and the string itself when it
    does neither. *)
Lemma TrimSpace_ASCII f :
  all_ASCII f = true ->
  (forall c, (count_byte c (TrimSpace f) <= count_byte c f)%nat) /\
  (forall c, first_byte (TrimSpace f) = Some c -> asciiSpace c = false) /\
  (forall c, last_byte (TrimSpace f) = Some c -> asciiSpace c = false) /\
  ((forall c, first_byte f = Some c -> asciiSpace c = false) ->
   (forall c, last_byte f = Some c -> asciiSpace c = false) ->
   TrimSpace f = f).
Proof.
  intros Hf. unfold TrimSpace.
  destruct (trim_start_ASCII f Hf)
    as (rest & -> & Hrest & Hfirst & Hcount & Hid).
  assert (forallb is_ASCII (rev (list_ascii_of_string rest)) = true) as Hrev.
  { apply forallb_forall. intros x Hx%in_rev.
    unfold all_ASCII in Hrest. by eapply forallb_forall in Hrest. }
  destruct (trim_stop_ASCII _ Hrev) as (k & l' & -> & Hk & Hhead & Hid').
  assert (list_ascii_of_string rest = (rev l' ++ rev k)%list) as Hsplit.
  { rewrite <- rev_app_distr, <- Hk. by rewrite rev_involutive. }
  unfold first_byte, last_byte.
  rewrite !list_ascii_of_string_of_list_ascii.
  split_and!.
  - intros c. specialize (Hcount c).
    rewrite <- (string_of_list_ascii_of_string rest), Hsplit in Hcount.
    rewrite count_byte_app in Hcount. lia.
  - intros c Hc. apply Hfirst. unfold first_byte. rewrite Hsplit.
    destruct (rev l'); simpl in *; [done|done].
  - intros c. rewrite last_rev. apply Hhead.
  - intros Hns Hne. rewrite (Hid Hns) in *.
    rewrite Hid'.
    + by rewrite rev_involutive, string_of_list_ascii_of_string.
    + intros c. rewrite head_rev. apply Hne.
Qed.

(** X19.  [headerAllCommaSepValues] returns, for each value of the
    header, one field more than the value has commas: it returns nothing
    exactly when the header is absent (or has no value), and a value that
    is empty still gives one, empty, field. *)
Theorem headerAllCommaSepValues_count (headers : Header) name :
  List.length (headerAllCommaSepValues headers name)
    = sum_list (map (fun val => S (count_byte ","%char val))
                  (default [] (headers !! CanonicalHeaderKey name))) /\
  (headerAllCommaSepValues headers name = [] <->
   default [] (headers !! CanonicalHeaderKey name) = []).
Proof.
  rewrite headerAllCommaSepValues_eq.
  generalize (default [] (headers !! CanonicalHeaderKey name)) as vals.
  intros vals.
  assert (List.length
            (List.concat
               (map (fun val => map TrimSpace (Split val ","%char)) vals))
          = sum_list (map (fun val => S (count_byte ","%char val)) vals))
    as Hlen.
  { induction vals as [|v vals IH]; simpl; [done|].
    by rewrite length_app, length_map, Split_length, IH. }
  split; [done|]. split.
  - intros Hnil. rewrite Hnil in Hlen. by destruct vals.
  - by intros ->.
Qed.

(** X20.  When the values of the header are ASCII, no field that
    [headerAllCommaSepValues] returns has a comma in it, or a space (tab,
    newline, ...) at its start or at its end. *)
Theorem headerAllCommaSepValues_fields_clean (headers : Header) name :
  Forall (fun val => all_ASCII val = true)
    (default [] (headers !! CanonicalHeaderKey name)) ->
  Forall (fun f =>
            count_byte ","%char f = 0%nat /\
            (forall c, first_byte f = Some c -> asciiSpace c = false) /\
            (forall c, last_byte f = Some c -> asciiSpace c = false))
    (headerAllCommaSepValues headers name).
Proof.
  rewrite headerAllCommaSepValues_eq.
  generalize (default [] (headers !! CanonicalHeaderKey name)) as vals.
  intros vals Hvals.
  induction Hvals as [|v vals Hv Hvals IH]; simpl; [constructor|].
  apply Forall_app. split; [|done].
  apply Forall_fmap.
  pose proof (Split_no_sep v ","%char) as Hsep.
  pose proof (Split_ASCII v ","%char Hv) as Hascii.
  revert Hsep Hascii. generalize (Split v ","%char) as fs.
  intros fs. induction fs as [|f fs IHfs]; [constructor|].
  intros Hsep Hascii.
  inversion Hsep as [|? ? Hf0 Hfs0]; inversion Hascii as [|? ? Hf1 Hfs1]; subst.
  constructor; [|by apply IHfs]. simpl.
  destruct (TrimSpace_ASCII f Hf1) as (Hcount & Hfirst & Hlast & _).
  split_and!; [|done|done].
  specialize (Hcount ","%char). lia.
Qed.

(** X21.  A header with one ASCII value, without a comma and without a
    space at either end, comes back as that one value. *)
Theorem headerAllCommaSepValues_single (headers : Header) name v :
  headers !! CanonicalHeaderKey name = Some [v] ->
  all_ASCII v = true ->
  count_byte ","%char v = 0%nat ->
  (forall c, first_byte v = Some c -> asciiSpace c = false) ->
  (forall c, last_byte v = Some c -> asciiSpace c = false) ->
  headerAllCommaSepValues headers name = [v].
Proof.
  intros Hh Hascii Hcomma Hfirst Hlast.
  rewrite headerAllCommaSepValues_eq, Hh. simpl.
  rewrite (Split_no_sep_id v) by done. simpl.
  destruct (TrimSpace_ASCII v Hascii) as (_ & _ & _ & Hid).
  by rewrite Hid.
Qed.
End comma_separated_values.

(** * A response that is stored but does not parse *)

Section unparsable.
Variable DefaultTransport : RoundTripper.
Variable readResponse : Bytes -> Request.t -> Response.t + Error.
Variable dumpResponse : Response.t -> Bytes * (Bytes + Error).

Abbreviation RoundTrip := (RoundTrip DefaultTransport readResponse dumpResponse).
Abbreviation transport_of := (transport_of DefaultTransport).

(** X22.  The store is written before the dumped bytes are parsed again:
    when that parse fails, [RoundTrip] returns a nil response with the
    parse error, and the bytes stay in the store under the cache key. *)
Theorem RoundTrip_unparsable_dump_stays_stored
    {C : Type} `{!Cache C} t req (s : State C) r b c l o resps now body
    respBytes e :
  requests s !! req = Some r ->
  Request.Method r = "GET" \/ Request.Method r = "HEAD" ->
  ~ has_header (Request.Header r) "Range" ->
  Cache_Get (clock s) (cacheKey r) (store s) = ((b, false), c) ->
  transport_of t req (sent r) (responses s) (clock s)
    = ((Some l, None), resps, now) ->
  resps !! l = Some o ->
  Response.StatusCode o <> StatusNotModified ->
  dumpResponse o = (body, inl respBytes) ->
  readResponse respBytes (sent r) = inr e ->
  exists s',
    RoundTrip t req s = (Done (None, Some e), s') /\
    store s' = Cache_Set now (cacheKey r) respBytes c /\
    trace s' =
      (trace s ++ [EvCacheGet (cacheKey r); EvRoundTrip req (sent r);
                   EvCacheSet (cacheKey r) respBytes])%list.
Proof.
  intros Hr Hm Hrange Hc Ht Hl Hcode Hdump Hparse.
  assert (eligible r = true) as He by (by apply eligible_true).
  destruct (after_lookup_miss r s b c He Hc) as [Hf Hs1].
  rewrite (RoundTrip_forwarded _ _ _ t req s r) by done.
  rewrite He, Hs1.
  rewrite (forward_stored _ _ _ t req _ r l o resps now body respBytes)
    by done.
  rewrite (bytesToResp_run _ _ _ _ (sent r)) by (simpl; apply lookup_insert_eq).
  rewrite Hparse. eexists. split; [done|]. simpl.
  split; [done|]. by rewrite <- app_assoc.
Qed.

(** X23.  With the in-memory store, bytes that do not parse poison their
    key for as long as they are fresh: every eligible request for the key
    made no later than the TTL after the write panics in [lookup], without
    calling the underlying transport, and the entry is still in the store
    afterwards. *)
Theorem RoundTrip_poisoned_key_panics
    t req (s : State MemoryCache) r t0 b c0 e :
  requests s !! req = Some r ->
  Request.Method r = "GET" \/ Request.Method r = "HEAD" ->
  ~ has_header (Request.Header r) "Range" ->
  store s = MemoryCache_Set t0 (cacheKey r) b c0 ->
  Since (clock s) t0 <= maxTTL c0 ->
  readResponse b r = inr e ->
  fst (RoundTrip t req s) = Panic e /\
  store (snd (RoundTrip t req s)) = store s /\
  trace (snd (RoundTrip t req s))
    = (trace s ++ [EvCacheGet (cacheKey r)])%list.
Proof.
  intros Hr Hm Hrange Hstore Hfresh Hparse.
  assert (eligible r = true) as He by (by apply eligible_true).
  assert (Cache_Get (clock s) (cacheKey r) (store s) = ((b, true), store s))
    as Hc.
  { rewrite Hstore. by apply MemoryCache_Get_after_Set. }
  assert (RoundTrip t req s =
          (Panic e,
           mkState (requests s) (responses s) (store s) (clock s)
             (trace s ++ [EvCacheGet (cacheKey r)]))) as ->.
  { rewrite (RoundTrip_eligible _ _ _ t req s r) by done. unfold bind at 1.
    by rewrite (lookup_corrupt readResponse req s r b (store s) e). }
  by split_and!.
Qed.
End unparsable.

(** * Runs of the further properties *)

Section more_store_runs.
Local Open Scope Z_scope.

Lemma NewMemoryCache_panics_or_empty_witness :
  NewMemoryCache 0 = None /\
  MemoryCache_Get 5 "k" Demo.empty_cache = (([], false), Demo.empty_cache).
Proof.
  destruct (NewMemoryCache_panics_or_empty 0) as [[_ Hpanic] _].
  destruct (NewMemoryCache_panics_or_empty 60) as [_ Hnew].
  destruct (Hnew Demo.empty_cache eq_refl) as (_ & _ & _ & _ & Hget).
  split; [apply Hpanic; lia|apply Hget].
Defined.

Lemma MemoryCache_Get_sound_witness :
  items (Demo.cache_with Demo.hello) !! Demo.url = Some Demo.hello /\
  Since 1000 (default zeroTime (ts (Demo.cache_with Demo.hello) !! Demo.url))
    <= maxTTL (Demo.cache_with Demo.hello).
Proof.
  destruct (MemoryCache_Get_sound 1000 Demo.url (Demo.cache_with Demo.hello)
              Demo.hello true (Demo.cache_with Demo.hello) eq_refl)
    as [Hok _].
  destruct (Hok eq_refl) as (_ & Hi & Hfresh). by split.
Defined.

Lemma MemoryCache_Set_then_Get_witness :
  MemoryCache_Get 1050 Demo.url
    (MemoryCache_Set 990 Demo.url Demo.hello (Demo.cache_with []))
  = ((Demo.hello, true),
     MemoryCache_Set 990 Demo.url Demo.hello (Demo.cache_with [])).
Proof.
  apply MemoryCache_Set_then_Get. vm_compute. discriminate.
Defined.

Lemma MemoryCache_Delete_removes_witness :
  MemoryCache_Delete Demo.url
    (MemoryCache_Set 5 Demo.url Demo.hello Demo.empty_cache)
  = Demo.empty_cache.
Proof.
  destruct (MemoryCache_Delete_removes 0 Demo.url Demo.empty_cache)
    as (_ & _ & Hundo).
  apply Hundo; reflexivity.
Defined.

Lemma MemoryCache_other_keys_untouched_witness :
  fst (MemoryCache_Get 1000 Demo.url
         (run_op (OpDelete "http://x/b") (Demo.cache_with Demo.hello)))
  = fst (MemoryCache_Get 1000 Demo.url (Demo.cache_with Demo.hello)).
Proof.
  destruct (MemoryCache_other_keys_untouched (OpDelete "http://x/b")
              Demo.url 1000 (Demo.cache_with Demo.hello))
    as (_ & _ & Hget); [discriminate|exact Hget].
Defined.

Lemma MemoryCache_Set_order_witness :
  ts (MemoryCache_Set 2 "b" [] (MemoryCache_Set 1 "a" Demo.hello
                                  Demo.empty_cache)) !! "a" = Some 1 /\
  ts (MemoryCache_Set 2 "a" Demo.hello (MemoryCache_Set 1 "b" []
                                          Demo.empty_cache)) !! "a" = Some 2 /\
  fst (MemoryCache_Get 61 "a"
         (MemoryCache_Set 2 "b" [] (MemoryCache_Set 1 "a" Demo.hello
                                      Demo.empty_cache)))
  = fst (MemoryCache_Get 61 "a"
           (MemoryCache_Set 2 "a" Demo.hello (MemoryCache_Set 1 "b" []
                                                Demo.empty_cache))).
Proof.
  destruct (MemoryCache_Set_order 1 2 "a" "b" Demo.hello [] Demo.empty_cache)
    as (_ & (Ha & _ & Hb & _) & _ & Hget); [discriminate|].
  split_and!; [exact Ha|exact Hb|].
  apply Hget; vm_compute; discriminate.
Defined.

Lemma MemoryCache_maxTTL_constant_witness :
  maxTTL (run_ops Sample.ops Demo.empty_cache) = 60 /\
  0 < maxTTL (run_ops Sample.ops Demo.empty_cache).
Proof. apply MemoryCache_maxTTL_constant. reflexivity. Defined.

Lemma MemoryCache_fresh_earlier_witness :
  MemoryCache_Get 1000 Demo.url (Demo.cache_with Demo.hello)
  = ((Demo.hello, true), Demo.cache_with Demo.hello).
Proof.
  apply (MemoryCache_fresh_earlier 1000 1050); [lia|reflexivity].
Defined.
End more_store_runs.

Section more_transport_runs.
Local Open Scope positive_scope.

Abbreviation demo_RoundTrip :=
  (RoundTrip Demo.unreachable Demo.readResponse Demo.dumpResponse).

Lemma lookup_only_gets_witness :
  trace (snd (lookup Demo.readResponse 1
                (Demo.start Demo.get (Demo.cache_with Demo.dhello))))
    = [EvCacheGet Demo.url] /\
  requests (snd (lookup Demo.readResponse 1
                   (Demo.start Demo.get (Demo.cache_with Demo.dhello))))
    = {[1 := Demo.get]}.
Proof.
  destruct (lookup_only_gets Demo.readResponse 1
              (Demo.start Demo.get (Demo.cache_with Demo.dhello)) Demo.get)
    as (Htrace & _ & Hreqs & _); [reflexivity|].
  split; [exact Htrace|exact Hreqs].
Defined.

Lemma RoundTrip_calls_at_most_once_witness :
  exists evs,
    trace (snd (Demo.run (Demo.origin 200 ∅ Demo.hello) Demo.get
                  Demo.empty_cache)) = evs /\
    (List.length (List.filter is_Get evs) <= 1)%nat /\
    (List.length (List.filter is_RoundTrip evs) <= 1)%nat.
Proof.
  destruct (RoundTrip_calls_at_most_once
              Demo.unreachable Demo.readResponse Demo.dumpResponse
              (Demo.via (Demo.origin 200 ∅ Demo.hello)) 1
              (Demo.start Demo.get Demo.empty_cache) Demo.get)
    as (evs & Htrace & Hget & Hrt & _); [reflexivity|].
  exists evs. split_and!; [exact Htrace|exact Hget|exact Hrt].
Defined.

Lemma cloneRequest_copies_witness :
  exists (r2 : loc) s',
    cloneRequest 1 Sample.busy = (Done r2, s') /\
    r2 <> 1 /\
    requests s' !! r2 = Some Demo.conditional_post /\
    requests s' !! 1 = Some Demo.conditional_post.
Proof.
  destruct (cloneRequest_copies 1 Sample.busy) as [_ Hclone].
  destruct (Hclone Demo.conditional_post eq_refl)
    as (r2 & s' & Hrun & Hne & _ & Hcopy & Horig & _).
  exists r2, s'. split_and!; [exact Hrun|exact Hne|exact Hcopy|exact Horig].
Defined.

Lemma RoundTrip_nil_reply_panics_witness :
  fst (Demo.run Sample.silent Demo.get Demo.empty_cache) = Panic nilDeref.
Proof.
  destruct (RoundTrip_nil_reply_panics
              Demo.unreachable Demo.readResponse Demo.dumpResponse
              (Demo.via Sample.silent) 1
              (Demo.start Demo.get Demo.empty_cache) Demo.get ∅ 1000%Z)
    as [Hpanic _].
  - reflexivity.
  - by right.
  - reflexivity.
  - exact Hpanic.
Defined.

Lemma RoundTrip_served_within_TTL_witness :
  exists (p : loc) s',
    Demo.run Demo.unreachable Demo.get (Demo.cache_with Demo.dhello)
      = (Done (Some p, None), s') /\
    store s' = Demo.cache_with Demo.dhello.
Proof.
  destruct (RoundTrip_served_within_TTL
              Demo.unreachable Demo.readResponse Demo.dumpResponse
              (Demo.via Demo.unreachable) 1
              (Demo.start Demo.get (Demo.cache_with Demo.dhello)) Demo.get
              990%Z Demo.dhello Demo.empty_cache
              (Response.mk 200 ∅ Demo.hello None))
    as (p & s' & Hrun & _ & Hstore & _).
  - reflexivity.
  - by left.
  - exact no_Range_in_empty.
  - reflexivity.
  - vm_compute. discriminate.
  - reflexivity.
  - exists p, s'. split; [exact Hrun|exact Hstore].
Defined.

Lemma RoundTrip_stale_entry_not_served_witness :
  exists s',
    demo_RoundTrip (Demo.via Demo.unreachable) 1 Sample.stale
      = (Done (None, Some "connection refused"), s') /\
    items (store s') !! Demo.url = None.
Proof.
  destruct (RoundTrip_stale_entry_not_served
              Demo.unreachable Demo.readResponse Demo.dumpResponse
              (Demo.via Demo.unreachable) 1 Sample.stale Demo.get
              Demo.dhello 990%Z None "connection refused" ∅ 1052%Z)
    as (s' & Hrun & _ & Hgone & _).
  - reflexivity.
  - by left.
  - exact no_Range_in_empty.
  - reflexivity.
  - reflexivity.
  - reflexivity.
  - reflexivity.
  - exists s'. split; [exact Hrun|exact Hgone].
Defined.
End more_transport_runs.

Section more_header_runs.
Abbreviation demo_values := (headerAllCommaSepValues id id).

Lemma headerAllCommaSepValues_count_witness :
  List.length (demo_values Sample.cache_control "cache-control") = 3%nat /\
  demo_values Sample.cache_control "Pragma" = [].
Proof.
  destruct (headerAllCommaSepValues_count id id Sample.cache_control
              "cache-control") as [Hlen _].
  destruct (headerAllCommaSepValues_count id id Sample.cache_control "Pragma")
    as [_ [_ Hnone]].
  split; [rewrite Hlen; reflexivity|apply Hnone; reflexivity].
Defined.

Lemma headerAllCommaSepValues_fields_clean_witness :
  Forall (fun f =>
            count_byte ","%char f = 0%nat /\
            (forall c, first_byte f = Some c -> asciiSpace c = false) /\
            (forall c, last_byte f = Some c -> asciiSpace c = false))
    (demo_values Sample.cache_control "cache-control") /\
  demo_values Sample.cache_control "cache-control"
    = ["no-cache"; "max-age=0"; ""].
Proof.
  split; [|reflexivity].
  apply headerAllCommaSepValues_fields_clean.
  vm_compute. repeat constructor.
Defined.

Lemma headerAllCommaSepValues_single_witness :
  demo_values Sample.accept "accept" = ["text/html"].
Proof.
  apply headerAllCommaSepValues_single.
  - reflexivity.
  - reflexivity.
  - reflexivity.
  - intros c Hc. vm_compute in Hc. injection Hc as <-. reflexivity.
  - intros c Hc. vm_compute in Hc. injection Hc as <-. reflexivity.
Defined.
End more_header_runs.

Section unparsable_runs.
Local Open Scope positive_scope.

(** A parser that rejects every byte sequence. *)
Abbreviation reject_all :=
  ((fun _ _ => inr "malformed HTTP response") : Bytes -> Request.t -> Response.t + Error).

Lemma RoundTrip_unparsable_dump_stays_stored_witness :
  exists s',
    RoundTrip Demo.unreachable reject_all Demo.dumpResponse
      (Demo.via (Demo.origin 200 ∅ Demo.hello)) 1
      (Demo.start Demo.get Demo.empty_cache)
    = (Done (None, Some "malformed HTTP response"), s') /\
    items (store s') !! Demo.url = Some Demo.dhello.
Proof.
  destruct (RoundTrip_unparsable_dump_stays_stored
              Demo.unreachable reject_all Demo.dumpResponse
              (Demo.via (Demo.origin 200 ∅ Demo.hello)) 1
              (Demo.start Demo.get Demo.empty_cache) Demo.get
              [] Demo.empty_cache 1 (Response.mk 200 ∅ Demo.hello (Some 1))
              {[1 := Response.mk 200 ∅ Demo.hello (Some 1)]} 1005%Z
              Demo.hello Demo.dhello "malformed HTTP response")
    as (s' & Hrun & Hstore & _).
  - reflexivity.
  - by left.
  - exact no_Range_in_empty.
  - reflexivity.
  - reflexivity.
  - reflexivity.
  - discriminate.
  - reflexivity.
  - reflexivity.
  - exists s'. split; [exact Hrun|]. rewrite Hstore. reflexivity.
Defined.

Lemma RoundTrip_poisoned_key_panics_witness :
  fst (Demo.run (Demo.origin 200 ∅ Demo.hello) Demo.get (Demo.cache_with []))
    = Panic "unexpected EOF" /\
  store (snd (Demo.run (Demo.origin 200 ∅ Demo.hello) Demo.get
                (Demo.cache_with [])))
    = Demo.cache_with [].
Proof.
  destruct (RoundTrip_poisoned_key_panics
              Demo.unreachable Demo.readResponse Demo.dumpResponse
              (Demo.via (Demo.origin 200 ∅ Demo.hello)) 1
              (Demo.start Demo.get (Demo.cache_with [])) Demo.get
              990%Z [] Demo.empty_cache "unexpected EOF")
    as (Hpanic & Hstore & _).
  - reflexivity.
  - by left.
  - exact no_Range_in_empty.
  - reflexivity.
  - vm_compute. discriminate.
  - reflexivity.
  - split; [exact Hpanic|exact Hstore].
Defined.
End unparsable_runs.
